(** * Smart door lock: the authentication state machine of
    [src/smart_door_lock.ino], embedded as state-passing functions.

    Every [void f()] of the sketch that reads or writes the globals is a
    function [Machine -> Machine]; the Arduino calls it makes
    ([digitalWrite], [tone], [delay], [lcd.print], [Servo::write]) are
    recorded, in order, in the trace of the board.  [millis()] reads the
    board clock, an [unsigned long] (32 bits on the Uno); [delay(n)]
    advances it by [n]; between two calls of [loop] the environment
    advances it by an arbitrary amount. *)

From Stdlib Require Import ZArith Lia Bool Ascii String.
From stdpp Require Import base tactics list strings.

Local Open Scope Z_scope.

(** ** Machine integers *)

(** [unsigned long] is 32 bits wide on the AVR target. *)
Definition ULONG_MOD : Z := 2 ^ 32.

Definition wrap32 (z : Z) : Z := z mod ULONG_MOD.

(** [a - b] on [unsigned long]. *)
Definition sub32 (a b : Z) : Z := wrap32 (a - b).

(** [a + b] on [unsigned long]. *)
Definition add32 (a b : Z) : Z := wrap32 (a + b).

(** ** Pin map and configuration (lines 33-82) *)

Definition PIN_PIR : Z := 4.
Definition PIN_LED_RED : Z := 2.
Definition PIN_LED_GRN : Z := 3.
Definition PIN_BUZZER : Z := 5.

Definition NUL : ascii := Ascii.zero.

(** [const char PASSWORD[] = "12345678";] with its terminator. *)
Definition PASSWORD : list ascii :=
  list_ascii_of_string "12345678" ++ [NUL].
Definition PASS_LEN : Z := 8.

Definition IDLE_TIMEOUT_MS : Z := 10000.
Definition LOCKOUT_MS : Z := 15000.

Definition MAX_ATTEMPTS : Z := 3.

Definition SERVO1_CLOSED : Z := 0.
Definition SERVO1_OPEN : Z := 90.
Definition SERVO2_CLOSED : Z := 180.
Definition SERVO2_OPEN : Z := 90.

Definition SERVO_STEP_DELAY_MS : Z := 10.

(** ** The board: clock, actuators and the trace of calls *)

Inductive ServoId := Servo1 | Servo2.

Inductive Event :=
| DigitalWrite (pin : Z) (high : bool)
| Tone (pin freq dur : Z)
| NoTone (pin : Z)
| Delay (ms : Z)
| LcdClear
| LcdSetCursor (col row : Z)
| LcdPrint (s : string)
| LcdPrintChar (c : ascii)
| LcdPrintNum (n : Z)
| ServoWrite (s : ServoId) (deg : Z).

Record Board := mkBoard {
  clock : Z;            (* what millis() returns *)
  ledRed : bool;        (* level last written to PIN_LED_RED *)
  ledGrn : bool;        (* level last written to PIN_LED_GRN *)
  servo1 : Z;           (* angle last written to servo1 *)
  servo2 : Z;           (* angle last written to servo2 *)
  trace : list Event    (* every call made so far, oldest first *)
}.

Definition emit (e : Event) (b : Board) : Board :=
  mkBoard (clock b) (ledRed b) (ledGrn b) (servo1 b) (servo2 b) (trace b ++ [e]).

Definition millis (b : Board) : Z := clock b.

Definition delay (ms : Z) (b : Board) : Board :=
  let b' := emit (Delay ms) b in
  mkBoard (add32 (clock b') ms) (ledRed b') (ledGrn b') (servo1 b') (servo2 b') (trace b').

Definition digitalWrite (pin : Z) (high : bool) (b : Board) : Board :=
  let b' := emit (DigitalWrite pin high) b in
  mkBoard (clock b')
          (if pin =? PIN_LED_RED then high else ledRed b')
          (if pin =? PIN_LED_GRN then high else ledGrn b')
          (servo1 b') (servo2 b') (trace b').

Definition servoWrite (s : ServoId) (deg : Z) (b : Board) : Board :=
  let b' := emit (ServoWrite s deg) b in
  mkBoard (clock b') (ledRed b') (ledGrn b')
          (match s with Servo1 => deg | Servo2 => servo1 b' end)
          (match s with Servo1 => servo2 b' | Servo2 => deg end)
          (trace b').

Definition tone (pin freq dur : Z) : Board -> Board := emit (Tone pin freq dur).
Definition noTone (pin : Z) : Board -> Board := emit (NoTone pin).

(** Sequencing of statements: [c1 >>> c2] runs [c1], then [c2]. *)
Definition seq_cmd {A : Type} (c1 c2 : A -> A) : A -> A := fun a => c2 (c1 a).
Notation "c1 >>> c2" := (seq_cmd c1 c2) (at level 62, right associativity).

Definition skip {A : Type} : A -> A := fun a => a.

(** A [for] loop whose body runs exactly [n] times, with the loop variable
    starting at [i] and moving by [step]. *)
Fixpoint for_loop {A : Type} (n : nat) (i step : Z) (body : Z -> A -> A) (a : A) : A :=
  match n with
  | O => a
  | S n' => for_loop n' (i + step) step body (body i a)
  end.

(** ** Helpers (lines 104-192) *)

Definition ledsOff : Board -> Board :=
  digitalWrite PIN_LED_RED false >>> digitalWrite PIN_LED_GRN false.

Definition ledGranted : Board -> Board :=
  digitalWrite PIN_LED_RED false >>> digitalWrite PIN_LED_GRN true.

Definition ledDenied : Board -> Board :=
  digitalWrite PIN_LED_GRN false >>> digitalWrite PIN_LED_RED true.

Definition beepSuccess : Board -> Board :=
  tone PIN_BUZZER 1200 150 >>> delay 170 >>>
  tone PIN_BUZZER 1500 150 >>> delay 200 >>>
  noTone PIN_BUZZER.

Definition beepError : Board -> Board :=
  tone PIN_BUZZER 300 300 >>> delay 350 >>> noTone PIN_BUZZER.

Definition beepLockout : Board -> Board :=
  for_loop 3 0 1 (fun _ => tone PIN_BUZZER 250 250 >>> delay 300) >>>
  noTone PIN_BUZZER.

Definition lcdHeader (line1 line2 : string) : Board -> Board :=
  emit LcdClear >>>
  emit (LcdSetCursor 0 0) >>> emit (LcdPrint line1) >>>
  emit (LcdSetCursor 0 1) >>> emit (LcdPrint line2).

(** [moveServoSmooth]: the loop [for (pos = fromDeg; pos != toDeg; pos += step)]
    leaves after exactly [|toDeg - fromDeg|] rounds ([sweep_guard] below). *)
Definition moveServoSmooth (s : ServoId) (fromDeg toDeg : Z) : Board -> Board :=
  if fromDeg =? toDeg then skip
  else
    let step := if toDeg >? fromDeg then 1 else -1 in
    for_loop (Z.to_nat (Z.abs (toDeg - fromDeg))) fromDeg step
             (fun pos => servoWrite s pos >>> delay SERVO_STEP_DELAY_MS) >>>
    servoWrite s toDeg.

Definition openDoor : Board -> Board :=
  moveServoSmooth Servo1 SERVO1_CLOSED SERVO1_OPEN >>>
  moveServoSmooth Servo2 SERVO2_CLOSED SERVO2_OPEN.

Definition closeDoor : Board -> Board :=
  moveServoSmooth Servo1 SERVO1_OPEN SERVO1_CLOSED >>>
  moveServoSmooth Servo2 SERVO2_OPEN SERVO2_CLOSED.

(** [printMaskedProgress] prints one cell per password position and reads
    only [inputIndex]. *)
Definition printMasked (index : Z) : Board -> Board :=
  emit (LcdSetCursor 0 1) >>>
  for_loop (Z.to_nat PASS_LEN) 0 1
           (fun i => emit (LcdPrintChar (if i <? index then "*"%char else " "%char))).

(** ** The character buffer *)

(** [buf[i]]; the sketch never reads outside the array. *)
Definition charAt (buf : list ascii) (i : Z) : ascii :=
  default NUL (buf !! Z.to_nat i).

(** [buf[i] = c]; the sketch never writes outside the array. *)
Definition setChar (buf : list ascii) (i : Z) (c : ascii) : list ascii :=
  <[Z.to_nat i := c]> buf.

(** The loop of [isPasswordCorrect] (lines 167-172), started at position [i]
    with [n] positions left.  The first component is the value returned; the
    second counts how many times the test [inputBuffer[i] != PASSWORD[i]] was
    evaluated before the function returned. *)
Fixpoint passwordLoop (n : nat) (i : Z) (buf : list ascii) : bool * nat :=
  match n with
  | O => (true, O)
  | S n' =>
      if negb (Ascii.eqb (charAt buf i) (charAt PASSWORD i))
      then (false, 1%nat)
      else let r := passwordLoop n' (i + 1) buf in (fst r, S (snd r))
  end.

Definition isPasswordCorrect (buf : list ascii) : bool :=
  fst (passwordLoop (Z.to_nat PASS_LEN) 0 buf).

Definition comparisonsMade (buf : list ascii) : nat :=
  snd (passwordLoop (Z.to_nat PASS_LEN) 0 buf).

(** ** State (lines 84-102) *)

Inductive State := IDLE | PROMPT | ENTRY | GRANTED | DENIED | LOCKED.

Definition State_eqb (a b : State) : bool :=
  match a, b with
  | IDLE, IDLE | PROMPT, PROMPT | ENTRY, ENTRY
  | GRANTED, GRANTED | DENIED, DENIED | LOCKED, LOCKED => true
  | _, _ => false
  end.

Record Machine := mkMachine {
  state : State;
  inputBuffer : list ascii;     (* char inputBuffer[PASS_LEN + 1] *)
  inputIndex : Z;
  failedAttempts : Z;
  entryStartMs : Z;
  lockoutStartMs : Z;
  board : Board
}.

Definition set_state (s : State) (m : Machine) : Machine :=
  mkMachine s (inputBuffer m) (inputIndex m) (failedAttempts m)
            (entryStartMs m) (lockoutStartMs m) (board m).
Definition set_inputBuffer (buf : list ascii) (m : Machine) : Machine :=
  mkMachine (state m) buf (inputIndex m) (failedAttempts m)
            (entryStartMs m) (lockoutStartMs m) (board m).
Definition set_inputIndex (i : Z) (m : Machine) : Machine :=
  mkMachine (state m) (inputBuffer m) i (failedAttempts m)
            (entryStartMs m) (lockoutStartMs m) (board m).
Definition set_failedAttempts (n : Z) (m : Machine) : Machine :=
  mkMachine (state m) (inputBuffer m) (inputIndex m) n
            (entryStartMs m) (lockoutStartMs m) (board m).
Definition set_entryStartMs (t : Z) (m : Machine) : Machine :=
  mkMachine (state m) (inputBuffer m) (inputIndex m) (failedAttempts m)
            t (lockoutStartMs m) (board m).
Definition set_lockoutStartMs (t : Z) (m : Machine) : Machine :=
  mkMachine (state m) (inputBuffer m) (inputIndex m) (failedAttempts m)
            (entryStartMs m) t (board m).

(** Run a hardware call on the board of the machine. *)
Definition hw (f : Board -> Board) (m : Machine) : Machine :=
  mkMachine (state m) (inputBuffer m) (inputIndex m) (failedAttempts m)
            (entryStartMs m) (lockoutStartMs m) (f (board m)).

Definition resetEntry (m : Machine) : Machine :=
  let m := set_inputIndex 0 m in
  let m := set_inputBuffer (setChar (inputBuffer m) 0 NUL) m in
  set_entryStartMs (millis (board m)) m.

Definition printMaskedProgress (m : Machine) : Machine :=
  hw (printMasked (inputIndex m)) m.

(** ** State transitions (lines 194-242) *)

Definition goIdle : Machine -> Machine :=
  hw ledsOff >>>
  hw closeDoor >>>
  resetEntry >>>
  set_state IDLE >>>
  hw (lcdHeader "System Idle" "Waiting motion").

Definition goPrompt : Machine -> Machine :=
  hw ledsOff >>>
  resetEntry >>>
  set_state PROMPT >>>
  hw (lcdHeader "Enter Password:" EmptyString) >>>
  printMaskedProgress.

Definition goGranted : Machine -> Machine :=
  set_state GRANTED >>>
  hw ledGranted >>>
  hw (lcdHeader "Access Granted" "Opening...") >>>
  hw beepSuccess >>>
  hw openDoor >>>
  hw (delay 2000) >>>
  hw (lcdHeader "Door Open" "Closing soon") >>>
  hw (delay 2000) >>>
  hw closeDoor >>>
  hw (delay 500) >>>
  goIdle.

(** [failedAttempts++] is on an [int]; it stays below [MAX_ATTEMPTS + 1]
    in every reachable state, far from the overflow of the type. *)
Definition goDenied : Machine -> Machine :=
  set_state DENIED >>>
  hw ledDenied >>>
  hw (lcdHeader "Access Denied" "Try again") >>>
  hw beepError >>>
  hw (delay 1500) >>>
  (fun m => set_failedAttempts (failedAttempts m + 1) m) >>>
  (fun m =>
     if failedAttempts m >=? MAX_ATTEMPTS then
       (set_lockoutStartMs (millis (board m)) >>>
        set_state LOCKED >>>
        hw (lcdHeader "LOCKED OUT" "Wait 15 sec") >>>
        hw beepLockout >>>
        hw ledDenied) m
     else goPrompt m).

(** ** Handlers (lines 244-307) *)

(** [key] is what [keypad.getKey()] returned; [NUL] is [NO_KEY]. *)
Definition handleKeypad (key : ascii) (m : Machine) : Machine :=
  if Ascii.eqb key NUL then m
  else
    let m := set_entryStartMs (millis (board m)) m in
    if Ascii.eqb key "*" then
      (hw (lcdHeader "Cancelled" "Returning...") >>>
       hw (delay 800) >>>
       goIdle) m
    else if Ascii.eqb key "#" then
      if inputIndex m <? PASS_LEN then
        (hw (lcdHeader "Password short" "Enter 8 chars") >>>
         hw (delay 1000) >>>
         hw (lcdHeader "Enter Password:" EmptyString) >>>
         printMaskedProgress) m
      else if isPasswordCorrect (inputBuffer m) then
        (set_failedAttempts 0 >>> goGranted) m
      else goDenied m
    else if inputIndex m <? PASS_LEN then
      let m := set_inputBuffer (setChar (inputBuffer m) (inputIndex m) key) m in
      let m := set_inputIndex (inputIndex m + 1) m in
      let m := if inputIndex m =? PASS_LEN
               then set_inputBuffer (setChar (inputBuffer m) PASS_LEN NUL) m
               else m in
      printMaskedProgress m
    else hw (tone PIN_BUZZER 600 50) m.

Definition handleTimeout (m : Machine) : Machine :=
  if State_eqb (state m) PROMPT || State_eqb (state m) ENTRY then
    if sub32 (millis (board m)) (entryStartMs m) >? IDLE_TIMEOUT_MS then
      (hw (lcdHeader "Timeout" "Returning...") >>>
       hw (delay 800) >>>
       goIdle) m
    else m
  else m.

Definition handleLockout (m : Machine) : Machine :=
  let elapsed := sub32 (millis (board m)) (lockoutStartMs m) in
  if elapsed >=? LOCKOUT_MS then
    (set_failedAttempts 0 >>>
     hw (lcdHeader "Unlocked" "Try again") >>>
     hw (delay 800) >>>
     goIdle) m
  else
    let remaining := sub32 LOCKOUT_MS elapsed / 1000 in
    (hw (emit (LcdSetCursor 0 1)) >>>
     hw (emit (LcdPrint "Wait ")) >>>
     hw (emit (LcdPrintNum remaining)) >>>
     hw (emit (LcdPrint " sec   "))) m.

(** ** [setup] and [loop] (lines 309-348) *)

(** [pinMode], [Servo::attach] and [lcd.begin] configure the peripherals and
    are left out of the trace. *)
Definition setup : Machine -> Machine :=
  hw ledsOff >>>
  hw (noTone PIN_BUZZER) >>>
  hw (servoWrite Servo1 SERVO1_CLOSED) >>>
  hw (servoWrite Servo2 SERVO2_CLOSED) >>>
  goIdle.

(** [motion] is what [isMotionDetected()] would return and [key] what
    [keypad.getKey()] would return, were they called in this round. *)
Definition loop (motion : bool) (key : ascii) (m : Machine) : Machine :=
  if State_eqb (state m) LOCKED then handleLockout m
  else if State_eqb (state m) IDLE then
    if motion then
      (hw (lcdHeader "Motion Detected" "Authenticating") >>>
       hw (delay 700) >>>
       goPrompt >>>
       set_state ENTRY) m
    else m
  else if State_eqb (state m) PROMPT || State_eqb (state m) ENTRY then
    (handleKeypad key >>> handleTimeout) m
  else m.

(** ** Runs *)

(** The state of the globals when the sketch starts, on a board [b]. *)
Definition power_on (b : Board) : Machine :=
  mkMachine IDLE (replicate (Z.to_nat (PASS_LEN + 1)) NUL) 0 0 0 0 b.

(** What the environment supplies to one round of [loop]: the time that
    went by since the previous round returned, the PIR level and the key. *)
Record Input := mkInput {
  in_dt : Z;
  in_motion : bool;
  in_key : ascii
}.

Definition advance (dt : Z) (b : Board) : Board :=
  mkBoard (add32 (clock b) dt) (ledRed b) (ledGrn b) (servo1 b) (servo2 b) (trace b).

Definition tick (i : Input) (m : Machine) : Machine :=
  loop (in_motion i) (in_key i) (hw (advance (in_dt i)) m).

Definition run (ins : list Input) (m : Machine) : Machine :=
  fold_left (fun m i => tick i m) ins m.

(** The machines [loop] can be entered with: [setup] has run on some board,
    then rounds of [loop] with any inputs, with any time going by between
    them. *)
Inductive reachable : Machine -> Prop :=
| reach_setup (b : Board) : reachable (setup (power_on b))
| reach_wait (dt : Z) (m : Machine) :
    reachable m -> reachable (hw (advance dt) m)
| reach_loop (motion : bool) (key : ascii) (m : Machine) :
    reachable m -> reachable (loop motion key m).

(** ** The five-state machine: [PROMPT] merged into [ENTRY]

    The same sketch over the five states of the design, for comparison with
    the six-state code: every place that names [State::PROMPT] names
    [ENTRY] instead. *)
Module Merged.

Inductive AuthState := IDLE | ENTRY | GRANTED | DENIED | LOCKED.

Definition AuthState_eqb (a b : AuthState) : bool :=
  match a, b with
  | IDLE, IDLE | ENTRY, ENTRY | GRANTED, GRANTED
  | DENIED, DENIED | LOCKED, LOCKED => true
  | _, _ => false
  end.

Record Machine := mkMachine {
  state : AuthState;
  inputBuffer : list ascii;
  inputIndex : Z;
  failedAttempts : Z;
  entryStartMs : Z;
  lockoutStartMs : Z;
  board : Board
}.

Definition set_state (s : AuthState) (m : Machine) : Machine :=
  mkMachine s (inputBuffer m) (inputIndex m) (failedAttempts m)
            (entryStartMs m) (lockoutStartMs m) (board m).
Definition set_inputBuffer (buf : list ascii) (m : Machine) : Machine :=
  mkMachine (state m) buf (inputIndex m) (failedAttempts m)
            (entryStartMs m) (lockoutStartMs m) (board m).
Definition set_inputIndex (i : Z) (m : Machine) : Machine :=
  mkMachine (state m) (inputBuffer m) i (failedAttempts m)
            (entryStartMs m) (lockoutStartMs m) (board m).
Definition set_failedAttempts (n : Z) (m : Machine) : Machine :=
  mkMachine (state m) (inputBuffer m) (inputIndex m) n
            (entryStartMs m) (lockoutStartMs m) (board m).
Definition set_entryStartMs (t : Z) (m : Machine) : Machine :=
  mkMachine (state m) (inputBuffer m) (inputIndex m) (failedAttempts m)
            t (lockoutStartMs m) (board m).
Definition set_lockoutStartMs (t : Z) (m : Machine) : Machine :=
  mkMachine (state m) (inputBuffer m) (inputIndex m) (failedAttempts m)
            (entryStartMs m) t (board m).
Definition hw (f : Board -> Board) (m : Machine) : Machine :=
  mkMachine (state m) (inputBuffer m) (inputIndex m) (failedAttempts m)
            (entryStartMs m) (lockoutStartMs m) (f (board m)).

Definition resetEntry (m : Machine) : Machine :=
  let m := set_inputIndex 0 m in
  let m := set_inputBuffer (setChar (inputBuffer m) 0 NUL) m in
  set_entryStartMs (millis (board m)) m.

Definition printMaskedProgress (m : Machine) : Machine :=
  hw (printMasked (inputIndex m)) m.

Definition goIdle : Machine -> Machine :=
  hw ledsOff >>> hw closeDoor >>> resetEntry >>> set_state IDLE >>>
  hw (lcdHeader "System Idle" "Waiting motion").

Definition goEntry : Machine -> Machine :=
  hw ledsOff >>> resetEntry >>> set_state ENTRY >>>
  hw (lcdHeader "Enter Password:" EmptyString) >>>
  printMaskedProgress.

Definition goGranted : Machine -> Machine :=
  set_state GRANTED >>>
  hw ledGranted >>>
  hw (lcdHeader "Access Granted" "Opening...") >>>
  hw beepSuccess >>>
  hw openDoor >>>
  hw (delay 2000) >>>
  hw (lcdHeader "Door Open" "Closing soon") >>>
  hw (delay 2000) >>>
  hw closeDoor >>>
  hw (delay 500) >>>
  goIdle.

Definition goDenied : Machine -> Machine :=
  set_state DENIED >>>
  hw ledDenied >>>
  hw (lcdHeader "Access Denied" "Try again") >>>
  hw beepError >>>
  hw (delay 1500) >>>
  (fun m => set_failedAttempts (failedAttempts m + 1) m) >>>
  (fun m =>
     if failedAttempts m >=? MAX_ATTEMPTS then
       (set_lockoutStartMs (millis (board m)) >>>
        set_state LOCKED >>>
        hw (lcdHeader "LOCKED OUT" "Wait 15 sec") >>>
        hw beepLockout >>>
        hw ledDenied) m
     else goEntry m).

Definition handleKeypad (key : ascii) (m : Machine) : Machine :=
  if Ascii.eqb key NUL then m
  else
    let m := set_entryStartMs (millis (board m)) m in
    if Ascii.eqb key "*" then
      (hw (lcdHeader "Cancelled" "Returning...") >>>
       hw (delay 800) >>>
       goIdle) m
    else if Ascii.eqb key "#" then
      if inputIndex m <? PASS_LEN then
        (hw (lcdHeader "Password short" "Enter 8 chars") >>>
         hw (delay 1000) >>>
         hw (lcdHeader "Enter Password:" EmptyString) >>>
         printMaskedProgress) m
      else if isPasswordCorrect (inputBuffer m) then
        (set_failedAttempts 0 >>> goGranted) m
      else goDenied m
    else if inputIndex m <? PASS_LEN then
      let m := set_inputBuffer (setChar (inputBuffer m) (inputIndex m) key) m in
      let m := set_inputIndex (inputIndex m + 1) m in
      let m := if inputIndex m =? PASS_LEN
               then set_inputBuffer (setChar (inputBuffer m) PASS_LEN NUL) m
               else m in
      printMaskedProgress m
    else hw (tone PIN_BUZZER 600 50) m.

Definition handleTimeout (m : Machine) : Machine :=
  if AuthState_eqb (state m) ENTRY then
    if sub32 (millis (board m)) (entryStartMs m) >? IDLE_TIMEOUT_MS then
      (hw (lcdHeader "Timeout" "Returning...") >>>
       hw (delay 800) >>>
       goIdle) m
    else m
  else m.

Definition handleLockout (m : Machine) : Machine :=
  let elapsed := sub32 (millis (board m)) (lockoutStartMs m) in
  if elapsed >=? LOCKOUT_MS then
    (set_failedAttempts 0 >>>
     hw (lcdHeader "Unlocked" "Try again") >>>
     hw (delay 800) >>>
     goIdle) m
  else
    let remaining := sub32 LOCKOUT_MS elapsed / 1000 in
    (hw (emit (LcdSetCursor 0 1)) >>>
     hw (emit (LcdPrint "Wait ")) >>>
     hw (emit (LcdPrintNum remaining)) >>>
     hw (emit (LcdPrint " sec   "))) m.

Definition loop (motion : bool) (key : ascii) (m : Machine) : Machine :=
  if AuthState_eqb (state m) LOCKED then handleLockout m
  else if AuthState_eqb (state m) IDLE then
    if motion then
      (hw (lcdHeader "Motion Detected" "Authenticating") >>>
       hw (delay 700) >>>
       goEntry >>>
       set_state ENTRY) m
    else m
  else if AuthState_eqb (state m) ENTRY then
    (handleKeypad key >>> handleTimeout) m
  else m.

Definition setup : Machine -> Machine :=
  hw ledsOff >>>
  hw (noTone PIN_BUZZER) >>>
  hw (servoWrite Servo1 SERVO1_CLOSED) >>>
  hw (servoWrite Servo2 SERVO2_CLOSED) >>>
  goIdle.

Definition power_on (b : Board) : Machine :=
  mkMachine IDLE (replicate (Z.to_nat (PASS_LEN + 1)) NUL) 0 0 0 0 b.

End Merged.

(** The abstraction: forget the difference between [PROMPT] and [ENTRY]. *)
Definition mergeState (s : State) : Merged.AuthState :=
  match s with
  | IDLE => Merged.IDLE
  | PROMPT | ENTRY => Merged.ENTRY
  | GRANTED => Merged.GRANTED
  | DENIED => Merged.DENIED
  | LOCKED => Merged.LOCKED
  end.

Definition merge (m : Machine) : Merged.Machine :=
  Merged.mkMachine (mergeState (state m)) (inputBuffer m) (inputIndex m)
                   (failedAttempts m) (entryStartMs m) (lockoutStartMs m)
                   (board m).

(** ** Vocabulary of the properties *)

(** The code is in its password-entry phase: [loop] polls the keypad. *)
Definition in_entry (m : Machine) : Prop :=
  state m = PROMPT \/ state m = ENTRY.

(** A key other than [NO_KEY], cancel and submit. *)
Definition plain_key (k : ascii) : Prop :=
  k <> NUL /\ k <> "*"%char /\ k <> "#"%char.

(** The first [PASS_LEN] cells of the buffer hold the password. *)
Definition holds_secret (buf : list ascii) : Prop :=
  forall i, 0 <= i < PASS_LEN -> charAt buf i = charAt PASSWORD i.

(** A board with nothing on it, to read off what a command emits. *)
Definition blank : Board := mkBoard 0 false false 0 0 [].

(** [f] only ever appends to the trace, and what it appends does not depend
    on the board it runs on. *)
Definition appends (f : Board -> Board) : Prop :=
  forall b, trace (f b) = trace b ++ trace (f blank).

(** What the helpers put on the trace, written out. *)
Definition lcdHeader_events (line1 line2 : string) : list Event :=
  [LcdClear; LcdSetCursor 0 0; LcdPrint line1; LcdSetCursor 0 1; LcdPrint line2].

Definition masked_events (index : Z) : list Event :=
  LcdSetCursor 0 1 ::
  map (fun i => LcdPrintChar (if i <? index then "*"%char else " "%char))
      (seqZ 0 PASS_LEN).

Definition ledsOff_events : list Event :=
  [DigitalWrite PIN_LED_RED false; DigitalWrite PIN_LED_GRN false].

Definition ledGranted_events : list Event :=
  [DigitalWrite PIN_LED_RED false; DigitalWrite PIN_LED_GRN true].

Definition beepSuccess_events : list Event :=
  [Tone PIN_BUZZER 1200 150; Delay 170; Tone PIN_BUZZER 1500 150; Delay 200;
   NoTone PIN_BUZZER].

(** One servo driven degree by degree from [fromDeg] to [toDeg]. *)
Definition sweep_events (s : ServoId) (fromDeg toDeg : Z) : list Event :=
  let positions :=
    if fromDeg <? toDeg then seqZ fromDeg (toDeg - fromDeg)
    else map (fun k => fromDeg - k) (seqZ 0 (fromDeg - toDeg)) in
  flat_map (fun pos => [ServoWrite s pos; Delay SERVO_STEP_DELAY_MS]) positions
  ++ [ServoWrite s toDeg].

Definition openDoor_events : list Event :=
  sweep_events Servo1 SERVO1_CLOSED SERVO1_OPEN ++
  sweep_events Servo2 SERVO2_CLOSED SERVO2_OPEN.

Definition closeDoor_events : list Event :=
  sweep_events Servo1 SERVO1_OPEN SERVO1_CLOSED ++
  sweep_events Servo2 SERVO2_OPEN SERVO2_CLOSED.

(** The door sequence of [goGranted], up to the call of [goIdle]. *)
Definition granted_events : list Event :=
  ledGranted_events ++
  lcdHeader_events "Access Granted" "Opening..." ++
  beepSuccess_events ++
  openDoor_events ++
  [Delay 2000] ++
  lcdHeader_events "Door Open" "Closing soon" ++
  [Delay 2000] ++
  closeDoor_events ++
  [Delay 500].

Definition goIdle_events : list Event :=
  ledsOff_events ++ closeDoor_events ++
  lcdHeader_events "System Idle" "Waiting motion".

(** The door is shut: both servos were last sent to their closed angle. *)
Definition door_closed (b : Board) : Prop :=
  servo1 b = SERVO1_CLOSED /\ servo2 b = SERVO2_CLOSED.

Definition leds_off (b : Board) : Prop :=
  ledRed b = false /\ ledGrn b = false.

(** The buffer holds no input: no character counted, and the string in the
    array is the empty one. *)
Definition buffer_empty (m : Machine) : Prop :=
  inputIndex m = 0 /\ charAt (inputBuffer m) 0 = NUL.

(** What [handleLockout] prints while the lockout lasts. *)
Definition countdown_events (remaining : Z) : list Event :=
  [LcdSetCursor 0 1; LcdPrint "Wait "; LcdPrintNum remaining; LcdPrint " sec   "].

Definition ceil_div (a b : Z) : Z := (a + b - 1) / b.

(** Kinds of rounds, decided from the machine and the input of the round
    (the clock has been advanced already). *)
Definition entry_stateb (m : Machine) : bool :=
  State_eqb (state m) PROMPT || State_eqb (state m) ENTRY.

Definition submits_full (key : ascii) (m : Machine) : bool :=
  entry_stateb m && Ascii.eqb key "#" && negb (inputIndex m <? PASS_LEN).

Definition is_granted (key : ascii) (m : Machine) : bool :=
  submits_full key m && isPasswordCorrect (inputBuffer m).

Definition is_denied (key : ascii) (m : Machine) : bool :=
  submits_full key m && negb (isPasswordCorrect (inputBuffer m)).

Definition is_expiry (m : Machine) : bool :=
  State_eqb (state m) LOCKED &&
  (sub32 (millis (board m)) (lockoutStartMs m) >=? LOCKOUT_MS).

(** The invariant of the rounds. *)
Record Inv (m : Machine) : Prop := mkInv {
  inv_state : state m = IDLE \/ state m = PROMPT \/ state m = ENTRY \/ state m = LOCKED;
  inv_index : 0 <= inputIndex m <= PASS_LEN;
  inv_buffer : length (inputBuffer m) = Z.to_nat (PASS_LEN + 1);
  inv_attempts : 0 <= failedAttempts m <= MAX_ATTEMPTS;
  inv_locked : failedAttempts m = MAX_ATTEMPTS <-> state m = LOCKED;
  inv_idle : state m = IDLE ->
             leds_off (board m) /\ door_closed (board m) /\ buffer_empty m
}.

(** ** Sample runs *)

(** Someone walks up to the door. *)
Definition approach : Input := mkInput 100 true NUL.

(** The keys of [s], one per round, 50 ms apart. *)
Definition press (s : string) : list Input :=
  map (fun c => mkInput 50 false c) (list_ascii_of_string s).

(** Eight characters typed, nothing submitted yet. *)
Definition full_entry : Machine :=
  run (approach :: press "12345678") (setup (power_on blank)).

(** Three wrong codes in a row. *)
Definition locked_out : Machine :=
  run (approach :: press "87654321#87654321#87654321#") (setup (power_on blank)).

(** ** Vocabulary of the proofs and sample machines *)

(** The machine once the key is known to be a real one: line 248. *)
Definition touched (m : Machine) : Machine :=
  set_entryStartMs (millis (board m)) m.

(** The machine after [inputBuffer[inputIndex++] = key] and the terminator
    written when the buffer fills up: lines 275-276. *)
Definition appended (key : ascii) (m : Machine) : Machine :=
  let m := set_inputBuffer (setChar (inputBuffer m) (inputIndex m) key) m in
  let m := set_inputIndex (inputIndex m + 1) m in
  if inputIndex m =? PASS_LEN
  then set_inputBuffer (setChar (inputBuffer m) PASS_LEN NUL) m
  else m.

(** Every call of [handleKeypad] takes one of the seven branches. *)
Inductive KeyBranch (k : ascii) (m : Machine) : Prop :=
| KeyNone : k = NUL -> KeyBranch k m
| KeyCancel : k = "*"%char -> KeyBranch k m
| KeyShort : k = "#"%char -> inputIndex m < PASS_LEN -> KeyBranch k m
| KeyGranted : k = "#"%char -> PASS_LEN <= inputIndex m ->
               isPasswordCorrect (inputBuffer m) = true -> KeyBranch k m
| KeyDenied : k = "#"%char -> PASS_LEN <= inputIndex m ->
              isPasswordCorrect (inputBuffer m) = false -> KeyBranch k m
| KeyAppend : plain_key k -> inputIndex m < PASS_LEN -> KeyBranch k m
| KeyFull : plain_key k -> PASS_LEN <= inputIndex m -> KeyBranch k m.

(** The machine [goGranted] hands to [goIdle]: lines 212-221 done. *)
Definition door_cycled (m : Machine) : Machine :=
  hw (ledGranted >>> lcdHeader "Access Granted" "Opening..." >>> beepSuccess >>>
      openDoor >>> delay 2000 >>> lcdHeader "Door Open" "Closing soon" >>>
      delay 2000 >>> closeDoor >>> delay 500)
     (set_state GRANTED m).

(** The buffer is full and 50 ms have gone by since the last key. *)
Definition full_entry_later : Machine := hw (advance 50) full_entry.

(** The deadline of the lockout as the clock counts, and the time left to
    it, both on [unsigned long]. *)
Definition lockoutDeadline32 (m : Machine) : Z :=
  add32 (lockoutStartMs m) LOCKOUT_MS.

Definition timeLeft (m : Machine) : Z :=
  sub32 (lockoutDeadline32 m) (millis (board m)).

(** The clock has not reached the deadline since the lockout began. *)
Definition before_deadline (m : Machine) : Prop :=
  sub32 (millis (board m)) (lockoutStartMs m) < LOCKOUT_MS.

(** Locked out, half a second after the lockout tones. *)
Definition locked_out_later : Machine := hw (advance 500) locked_out.

(** Locked out, with the lockout over. *)
Definition lockout_over : Machine := hw (advance 15000) locked_out.

(** A wrong code, wrong from its first character on. *)
Definition wrong_code : list ascii := list_ascii_of_string "87654321" ++ [NUL].

(** Four characters typed, then nothing for eleven seconds. *)
Definition stale_entry : Machine :=
  hw (advance 11000) (run (approach :: press "1234") (setup (power_on blank))).

(** What a round does to the failure counter, by kind of round. *)
Inductive CounterStep (key : ascii) (m m' : Machine) : Prop :=
| StepGranted :
    is_granted key m = true -> state m' = IDLE -> failedAttempts m' = 0 ->
    CounterStep key m m'
| StepDenied :
    is_denied key m = true -> failedAttempts m' = failedAttempts m + 1 ->
    CounterStep key m m'
| StepExpiry :
    is_expiry m = true -> state m' = IDLE -> failedAttempts m' = 0 ->
    CounterStep key m m'
| StepOther :
    is_granted key m = false -> is_denied key m = false -> is_expiry m = false ->
    failedAttempts m' = failedAttempts m ->
    lockoutStartMs m' = lockoutStartMs m ->
    (state m' = LOCKED -> state m = LOCKED) ->
    CounterStep key m m'.

(** ** Vocabulary of the further properties *)

(** [f] keeps the board busy for [d] milliseconds, whatever the board:
    [millis()] read after it, minus [millis()] read before it, is [d]. *)
Definition takes (f : Board -> Board) (d : Z) : Prop :=
  forall b, sub32 (clock (f b)) (clock b) = d.

(** [f] leaves the LEDs and both servos as they are. *)
Definition keeps_pins (f : Board -> Board) : Prop :=
  forall b, ledRed (f b) = ledRed b /\ ledGrn (f b) = ledGrn b /\
            servo1 (f b) = servo1 b /\ servo2 (f b) = servo2 b.

(** The angle last written to a servo. *)
Definition servoPos (s : ServoId) (b : Board) : Z :=
  match s with Servo1 => servo1 b | Servo2 => servo2 b end.

Definition otherServo (s : ServoId) : ServoId :=
  match s with Servo1 => Servo2 | Servo2 => Servo1 end.

(** The cells [printMaskedProgress] shows for [index] characters typed. *)
Definition masked_cells (index : Z) : list ascii :=
  replicate (Z.to_nat index) "*"%char ++
  replicate (Z.to_nat (PASS_LEN - index)) " "%char.

(** What [goDenied] puts on the trace: the part common to both outcomes,
    then the lockout announcement or the new prompt. *)
Definition ledDenied_events : list Event :=
  [DigitalWrite PIN_LED_GRN false; DigitalWrite PIN_LED_RED true].

Definition beepError_events : list Event :=
  [Tone PIN_BUZZER 300 300; Delay 350; NoTone PIN_BUZZER].

Definition beepLockout_events : list Event :=
  [Tone PIN_BUZZER 250 250; Delay 300; Tone PIN_BUZZER 250 250; Delay 300;
   Tone PIN_BUZZER 250 250; Delay 300; NoTone PIN_BUZZER].

Definition denied_events : list Event :=
  ledDenied_events ++ lcdHeader_events "Access Denied" "Try again" ++
  beepError_events ++ [Delay 1500].

Definition lockout_events : list Event :=
  lcdHeader_events "LOCKED OUT" "Wait 15 sec" ++ beepLockout_events ++
  ledDenied_events.

Definition prompt_events : list Event :=
  ledsOff_events ++ lcdHeader_events "Enter Password:" EmptyString ++
  masked_events 0.

(** The idle period of the entry phase has run out. *)
Definition idle_expired (m : Machine) : Prop :=
  IDLE_TIMEOUT_MS < sub32 (millis (board m)) (entryStartMs m).

(** Time on the clock between two machines, as the sketch itself measures
    time: [millis()] now minus [millis()] then. *)
Definition elapsed (before after : Machine) : Z :=
  sub32 (clock (board after)) (clock (board before)).

(** Eight wrong characters typed, nothing submitted yet. *)
Definition wrong_entry : Machine :=
  run (approach :: press "87654321") (setup (power_on blank)).

(** What holds of the pins and of the buffer between two rounds. *)
Record RoundInv (m : Machine) : Prop := mkRoundInv {
  ri_green : ledGrn (board m) = false;
  ri_red : ledRed (board m) = true <-> state m = LOCKED;
  ri_door : door_closed (board m);
  ri_term : charAt (inputBuffer m) PASS_LEN = NUL;
  ri_plain : forall j, 0 <= j < inputIndex m -> plain_key (charAt (inputBuffer m) j)
}.

(** The keys of a sequence of rounds, and the time it spans. *)
Definition keys_of (ins : list Input) : list ascii := map in_key ins.

Definition total_dt (ins : list Input) : Z :=
  fold_right (fun i t => in_dt i + t) 0 ins.

(** The password without its terminator. *)
Definition secret : list ascii := take (Z.to_nat PASS_LEN) PASSWORD.

(** Motion has been seen and nothing typed yet. *)
Definition fresh_entry : Machine := run [approach] (setup (power_on blank)).

(** Two keys, twenty seconds apart. *)
Definition slow_typing : list Input :=
  [mkInput 20000 false "1"; mkInput 20000 false "2"].

(** The password typed one key per round, 50 ms apart, and a wrong code
    typed the same way. *)
Definition type_secret : list Input := press "12345678".
Definition type_wrong : list Input := press "12345679".

(** Rounds during which time does not run backwards. *)
Definition forward (ins : list Input) : Prop :=
  Forall (fun i => 0 <= in_dt i) ins.

(** Keys hammered and motion seen, five seconds into a lockout. *)
Definition hammering : list Input :=
  [mkInput 2000 true "1"; mkInput 2000 false "#"; mkInput 1000 true "*"].

(** What the three ways into [goIdle] from a handler show first. *)
Definition leaving_events (line1 line2 : string) : list Event :=
  lcdHeader_events line1 line2 ++ [Delay 800] ++ goIdle_events.

(** The five-state machine run on a sequence of rounds. *)
Definition merged_tick (i : Input) (a : Merged.Machine) : Merged.Machine :=
  Merged.loop (in_motion i) (in_key i) (Merged.hw (advance (in_dt i)) a).

Definition merged_run (ins : list Input) (a : Merged.Machine) : Merged.Machine :=
  fold_left (fun a i => merged_tick i a) ins a.

(** A buffer that holds the password and something else behind it. *)
Definition secret_and_more : list ascii :=
  list_ascii_of_string "12345678X".

(** What [setup] puts on the trace before it calls [goIdle]. *)
Definition setup_events : list Event :=
  ledsOff_events ++
  [NoTone PIN_BUZZER; ServoWrite Servo1 SERVO1_CLOSED;
   ServoWrite Servo2 SERVO2_CLOSED].

(** ** Basic facts *)

Lemma sub32_same (c : Z) : sub32 c c = 0.
Proof. unfold sub32, wrap32. by rewrite Z.sub_diag. Qed.

Lemma sub32_add32 (c d : Z) : sub32 (add32 c d) c = wrap32 d.
Proof.
  unfold sub32, add32, wrap32.
  rewrite Zminus_mod_idemp_l. f_equal. lia.
Qed.

(** The guard [pos != toDeg] of the loop of [moveServoSmooth] holds before
    each of the [|toDeg - fromDeg|] rounds and fails after the last. *)
Lemma sweep_guard (fromDeg toDeg : Z) :
  let step := if toDeg >? fromDeg then 1 else -1 in
  let n := Z.abs (toDeg - fromDeg) in
  fromDeg + n * step = toDeg /\
  forall k, 0 <= k < n -> fromDeg + k * step <> toDeg.
Proof.
  cbn zeta. destruct (Z.gtb_spec toDeg fromDeg); split; try lia; intros; nia.
Qed.

Lemma appends_emit e : appends (emit e).
Proof. intros b. reflexivity. Qed.

Lemma appends_delay ms : appends (delay ms).
Proof. intros b. reflexivity. Qed.

Lemma appends_digitalWrite pin v : appends (digitalWrite pin v).
Proof. intros b. reflexivity. Qed.

Lemma appends_servoWrite s deg : appends (servoWrite s deg).
Proof. intros b. reflexivity. Qed.

Lemma appends_skip : appends skip.
Proof. intros b. unfold skip. cbn. by rewrite app_nil_r. Qed.

Lemma appends_seq f g : appends f -> appends g -> appends (f >>> g).
Proof.
  intros Hf Hg b. unfold seq_cmd.
  rewrite (Hg (f b)), (Hg (f blank)), (Hf b), (Hf blank).
  cbn. by rewrite app_assoc.
Qed.

Lemma appends_for_loop n i step body :
  (forall j, appends (body j)) -> appends (for_loop n i step body).
Proof.
  intros Hb. revert i.
  assert (Hgen : forall n i b,
             trace (for_loop n i step body b)
             = trace b ++ trace (for_loop n i step body blank)).
  { clear n. induction n as [|n IH]; intros i b; cbn [for_loop].
    - cbn. by rewrite app_nil_r.
    - rewrite (IH (i + step) (body i b)), (IH (i + step) (body i blank)).
      rewrite (Hb i b). by rewrite app_assoc. }
  intros i b. apply Hgen.
Qed.

Lemma appends_moveServoSmooth s fromDeg toDeg :
  appends (moveServoSmooth s fromDeg toDeg).
Proof.
  unfold moveServoSmooth. destruct (fromDeg =? toDeg).
  - apply appends_skip.
  - apply appends_seq; [apply appends_for_loop; intros j|].
    + apply appends_seq; [apply appends_servoWrite | apply appends_delay].
    + apply appends_servoWrite.
Qed.

(** Decompose a command along [>>>] and close the leaves. *)
Ltac solve_appends :=
  unfold ledsOff, ledGranted, ledDenied, beepSuccess, beepError, beepLockout,
    lcdHeader, printMasked, openDoor, closeDoor, tone, noTone;
  repeat lazymatch goal with
    | |- appends (_ >>> _) => apply appends_seq
    | |- appends (for_loop _ _ _ _) => apply appends_for_loop; intros ?
    | |- appends (emit _) => apply appends_emit
    | |- appends (delay _) => apply appends_delay
    | |- appends (digitalWrite _ _) => apply appends_digitalWrite
    | |- appends (servoWrite _ _) => apply appends_servoWrite
    | |- appends (moveServoSmooth _ _ _) => apply appends_moveServoSmooth
    | |- appends skip => apply appends_skip
    end.

(** The trace after a command, from the trace it leaves on a blank board. *)
Lemma trace_of (f : Board -> Board) (es : list Event) (b : Board) :
  appends f -> trace (f blank) = es -> trace (f b) = trace b ++ es.
Proof. intros Hf <-. apply Hf. Qed.

(** ** What the transitions do to the globals and to the pins *)

Lemma isPasswordCorrect_spec buf :
  isPasswordCorrect buf = true <-> holds_secret buf.
Proof.
  unfold isPasswordCorrect, holds_secret.
  assert (Hgen : forall n i,
    fst (passwordLoop n i buf) = true <->
    forall j, i <= j < i + Z.of_nat n -> charAt buf j = charAt PASSWORD j).
  { induction n as [|n IH]; intros i; cbn [passwordLoop].
    - split; [intros _ j Hj; lia | done].
    - destruct (Ascii.eqb_spec (charAt buf i) (charAt PASSWORD i)) as [He|Hne];
        cbn [negb fst].
      + rewrite IH. split; intros H j Hj.
        * destruct (decide (j = i)) as [->|]; [done|]. apply H. lia.
        * apply H. lia.
      + split; [done|]. intros H. exfalso. apply Hne, H. lia. }
  rewrite Hgen. split; intros H j Hj; apply H; unfold PASS_LEN in *; lia.
Qed.

Lemma goIdle_fields m :
  state (goIdle m) = IDLE /\
  inputIndex (goIdle m) = 0 /\
  inputBuffer (goIdle m) = setChar (inputBuffer m) 0 NUL /\
  failedAttempts (goIdle m) = failedAttempts m /\
  lockoutStartMs (goIdle m) = lockoutStartMs m.
Proof. repeat split. Qed.

Lemma goIdle_pins m :
  leds_off (board (goIdle m)) /\ door_closed (board (goIdle m)).
Proof. repeat split; reflexivity. Qed.

Lemma goPrompt_fields m :
  state (goPrompt m) = PROMPT /\
  inputIndex (goPrompt m) = 0 /\
  inputBuffer (goPrompt m) = setChar (inputBuffer m) 0 NUL /\
  failedAttempts (goPrompt m) = failedAttempts m /\
  lockoutStartMs (goPrompt m) = lockoutStartMs m /\
  entryStartMs (goPrompt m) = millis (board (goPrompt m)).
Proof. repeat split. Qed.

(** [goDenied], when this failure reaches the limit. *)
Lemma goDenied_lock m :
  MAX_ATTEMPTS <= failedAttempts m + 1 ->
  state (goDenied m) = LOCKED /\
  inputIndex (goDenied m) = inputIndex m /\
  inputBuffer (goDenied m) = inputBuffer m /\
  failedAttempts (goDenied m) = failedAttempts m + 1 /\
  entryStartMs (goDenied m) = entryStartMs m.
Proof.
  intros H. unfold goDenied, seq_cmd.
  cbn [failedAttempts set_failedAttempts hw set_state].
  destruct (Z.geb_spec (failedAttempts m + 1) MAX_ATTEMPTS); [|lia].
  repeat split.
Qed.

(** [goDenied], when attempts remain: back to the prompt. *)
Lemma goDenied_retry m :
  failedAttempts m + 1 < MAX_ATTEMPTS ->
  state (goDenied m) = PROMPT /\
  inputIndex (goDenied m) = 0 /\
  inputBuffer (goDenied m) = setChar (inputBuffer m) 0 NUL /\
  failedAttempts (goDenied m) = failedAttempts m + 1 /\
  lockoutStartMs (goDenied m) = lockoutStartMs m /\
  entryStartMs (goDenied m) = millis (board (goDenied m)).
Proof.
  intros H. unfold goDenied, seq_cmd.
  cbn [failedAttempts set_failedAttempts hw set_state].
  destruct (Z.geb_spec (failedAttempts m + 1) MAX_ATTEMPTS); [lia|].
  repeat split.
Qed.

(** ** The branches of [handleKeypad] *)

Lemma handleKeypad_none m : handleKeypad NUL m = m.
Proof. reflexivity. Qed.

Lemma handleKeypad_cancel m :
  handleKeypad "*" m =
  goIdle (hw (delay 800) (hw (lcdHeader "Cancelled" "Returning...") (touched m))).
Proof. reflexivity. Qed.

Lemma handleKeypad_short m :
  inputIndex m < PASS_LEN ->
  handleKeypad "#" m =
  printMaskedProgress
    (hw (lcdHeader "Enter Password:" EmptyString)
        (hw (delay 1000)
            (hw (lcdHeader "Password short" "Enter 8 chars") (touched m)))).
Proof.
  intros H. unfold handleKeypad. cbn [Ascii.eqb Bool.eqb NUL Ascii.zero].
  cbn [inputIndex set_entryStartMs].
  destruct (Z.ltb_spec (inputIndex m) PASS_LEN); [reflexivity | lia].
Qed.

Lemma handleKeypad_granted m :
  PASS_LEN <= inputIndex m ->
  isPasswordCorrect (inputBuffer m) = true ->
  handleKeypad "#" m = goGranted (set_failedAttempts 0 (touched m)).
Proof.
  intros H Hok. unfold handleKeypad. cbn [Ascii.eqb Bool.eqb NUL Ascii.zero].
  cbn [inputIndex inputBuffer set_entryStartMs].
  destruct (Z.ltb_spec (inputIndex m) PASS_LEN); [lia|].
  rewrite Hok. reflexivity.
Qed.

Lemma handleKeypad_denied m :
  PASS_LEN <= inputIndex m ->
  isPasswordCorrect (inputBuffer m) = false ->
  handleKeypad "#" m = goDenied (touched m).
Proof.
  intros H Hok. unfold handleKeypad. cbn [Ascii.eqb Bool.eqb NUL Ascii.zero].
  cbn [inputIndex inputBuffer set_entryStartMs].
  destruct (Z.ltb_spec (inputIndex m) PASS_LEN); [lia|].
  rewrite Hok. reflexivity.
Qed.

Lemma plain_key_eqb k :
  plain_key k ->
  Ascii.eqb k NUL = false /\ Ascii.eqb k "*" = false /\ Ascii.eqb k "#" = false.
Proof.
  intros (H0 & H1 & H2). repeat split; by apply Ascii.eqb_neq.
Qed.

Lemma handleKeypad_append k m :
  plain_key k -> inputIndex m < PASS_LEN ->
  handleKeypad k m = printMaskedProgress (appended k (touched m)).
Proof.
  intros Hk H. destruct (plain_key_eqb k Hk) as (E0 & E1 & E2).
  unfold handleKeypad. rewrite E0, E1, E2.
  cbn [inputIndex set_entryStartMs].
  destruct (Z.ltb_spec (inputIndex m) PASS_LEN); [reflexivity | lia].
Qed.

Lemma handleKeypad_full k m :
  plain_key k -> PASS_LEN <= inputIndex m ->
  handleKeypad k m = hw (tone PIN_BUZZER 600 50) (touched m).
Proof.
  intros Hk H. destruct (plain_key_eqb k Hk) as (E0 & E1 & E2).
  unfold handleKeypad. rewrite E0, E1, E2.
  cbn [inputIndex set_entryStartMs].
  destruct (Z.ltb_spec (inputIndex m) PASS_LEN); [lia | reflexivity].
Qed.

Lemma appended_frame k m :
  state (appended k m) = state m /\
  failedAttempts (appended k m) = failedAttempts m /\
  entryStartMs (appended k m) = entryStartMs m /\
  lockoutStartMs (appended k m) = lockoutStartMs m /\
  board (appended k m) = board m.
Proof.
  unfold appended. cbn [inputIndex set_inputIndex set_inputBuffer].
  by destruct (_ =? _).
Qed.

Lemma key_branch k m : KeyBranch k m.
Proof.
  destruct (decide (k = NUL)) as [?|H0]; [by apply KeyNone|].
  destruct (decide (k = "*"%char)) as [?|H1]; [by apply KeyCancel|].
  destruct (Z.lt_ge_cases (inputIndex m) PASS_LEN).
  - destruct (decide (k = "#"%char)) as [?|H2]; [by apply KeyShort|].
    by apply KeyAppend.
  - destruct (decide (k = "#"%char)) as [?|H2]; [|by apply KeyFull].
    destruct (isPasswordCorrect (inputBuffer m)) eqn:E;
      [by apply KeyGranted | by apply KeyDenied].
Qed.

(** ** The branches of [handleTimeout], [handleLockout] and [loop] *)

Lemma entry_stateb_true m : entry_stateb m = true <-> in_entry m.
Proof.
  unfold entry_stateb, in_entry. destruct (state m); cbn; intuition discriminate.
Qed.

Lemma handleTimeout_elsewhere m : ~ in_entry m -> handleTimeout m = m.
Proof.
  intros H. unfold handleTimeout. fold (entry_stateb m).
  destruct (entry_stateb m) eqn:E; [|done].
  by apply entry_stateb_true in E.
Qed.

Lemma handleTimeout_fresh m :
  sub32 (millis (board m)) (entryStartMs m) <= IDLE_TIMEOUT_MS ->
  handleTimeout m = m.
Proof.
  intros H. unfold handleTimeout.
  destruct (Z.gtb_spec (sub32 (millis (board m)) (entryStartMs m)) IDLE_TIMEOUT_MS);
    [lia|]. by destruct (_ || _).
Qed.

Lemma handleTimeout_expired m :
  in_entry m ->
  IDLE_TIMEOUT_MS < sub32 (millis (board m)) (entryStartMs m) ->
  handleTimeout m =
  goIdle (hw (delay 800) (hw (lcdHeader "Timeout" "Returning...") m)).
Proof.
  intros He H. unfold handleTimeout. fold (entry_stateb m).
  apply entry_stateb_true in He. rewrite He.
  destruct (Z.gtb_spec (sub32 (millis (board m)) (entryStartMs m)) IDLE_TIMEOUT_MS);
    [reflexivity | lia].
Qed.

Lemma handleLockout_expired m :
  LOCKOUT_MS <= sub32 (millis (board m)) (lockoutStartMs m) ->
  handleLockout m =
  goIdle (hw (delay 800) (hw (lcdHeader "Unlocked" "Try again")
                             (set_failedAttempts 0 m))).
Proof.
  intros H. unfold handleLockout. cbn zeta.
  destruct (Z.geb_spec (sub32 (millis (board m)) (lockoutStartMs m)) LOCKOUT_MS);
    [reflexivity | lia].
Qed.

Lemma sub32_range a b : 0 <= sub32 a b < ULONG_MOD.
Proof. apply Z.mod_pos_bound. by vm_compute. Qed.

Lemma handleLockout_waiting m :
  sub32 (millis (board m)) (lockoutStartMs m) < LOCKOUT_MS ->
  handleLockout m =
  hw (emit (LcdSetCursor 0 1) >>> emit (LcdPrint "Wait ") >>>
      emit (LcdPrintNum
              ((LOCKOUT_MS - sub32 (millis (board m)) (lockoutStartMs m)) / 1000)) >>>
      emit (LcdPrint " sec   ")) m.
Proof.
  intros H. unfold handleLockout. cbn zeta.
  destruct (Z.geb_spec (sub32 (millis (board m)) (lockoutStartMs m)) LOCKOUT_MS);
    [lia|].
  pose proof (sub32_range (millis (board m)) (lockoutStartMs m)) as Hr.
  assert (Hsub : sub32 LOCKOUT_MS (sub32 (millis (board m)) (lockoutStartMs m))
                 = LOCKOUT_MS - sub32 (millis (board m)) (lockoutStartMs m)).
  { unfold sub32 at 1. unfold wrap32. apply Z.mod_small.
    unfold LOCKOUT_MS, ULONG_MOD in *. lia. }
  rewrite Hsub. reflexivity.
Qed.

Lemma loop_locked motion key m :
  state m = LOCKED -> loop motion key m = handleLockout m.
Proof. intros H. unfold loop. by rewrite H. Qed.

Lemma loop_idle_still key m :
  state m = IDLE -> loop false key m = m.
Proof. intros H. unfold loop. by rewrite H. Qed.

Lemma loop_idle_motion key m :
  state m = IDLE ->
  loop true key m =
  set_state ENTRY
    (goPrompt (hw (delay 700)
                  (hw (lcdHeader "Motion Detected" "Authenticating") m))).
Proof. intros H. unfold loop. by rewrite H. Qed.

Lemma loop_entry motion key m :
  in_entry m -> loop motion key m = handleTimeout (handleKeypad key m).
Proof. intros [H|H]; unfold loop; by rewrite H. Qed.

(** After a key has been handled the time-out test of the same round cannot
    succeed: the machine has left the entry phase, or the idle timer was
    restarted at most one second ago. *)
Lemma handleTimeout_after_key k m :
  k <> NUL -> handleTimeout (handleKeypad k m) = handleKeypad k m.
Proof.
  intros Hk. destruct (key_branch k m) as [? | -> | -> Hi | -> Hi Hp | -> Hi Hp | Hp Hi | Hp Hi];
    [done|..].
  - rewrite handleKeypad_cancel. apply handleTimeout_elsewhere.
    intros [H|H]; discriminate H.
  - rewrite handleKeypad_short by done. apply handleTimeout_fresh.
    change (sub32 (add32 (clock (board m)) 1000) (clock (board m))
            <= IDLE_TIMEOUT_MS).
    rewrite sub32_add32. by vm_compute.
  - rewrite handleKeypad_granted by done. apply handleTimeout_elsewhere.
    intros [H|H]; discriminate H.
  - rewrite handleKeypad_denied by done.
    destruct (Z.lt_ge_cases (failedAttempts (touched m) + 1) MAX_ATTEMPTS) as [Hf|Hf].
    + apply handleTimeout_fresh.
      destruct (goDenied_retry _ Hf) as (_ & _ & _ & _ & _ & ->).
      rewrite sub32_same. by vm_compute.
    + apply handleTimeout_elsewhere.
      destruct (goDenied_lock (touched m)) as (Hs & _); [lia|].
      intros [H|H]; rewrite Hs in H; discriminate H.
  - rewrite handleKeypad_append by done. apply handleTimeout_fresh.
    destruct (appended_frame k (touched m)) as (_ & _ & Hes & _ & Hb).
    unfold printMaskedProgress. cbn [hw board entryStartMs]. rewrite Hes, Hb.
    change (sub32 (clock (board m)) (clock (board m)) <= IDLE_TIMEOUT_MS).
    rewrite sub32_same. by vm_compute.
  - rewrite handleKeypad_full by done. apply handleTimeout_fresh.
    change (sub32 (clock (board m)) (clock (board m)) <= IDLE_TIMEOUT_MS).
    rewrite sub32_same. by vm_compute.
Qed.

(** ** The invariant holds after [setup] and is kept by every round *)

Lemma charAt_setChar_same buf i c :
  0 <= i -> (Z.to_nat i < length buf)%nat -> charAt (setChar buf i c) i = c.
Proof.
  intros Hi Hlen. unfold charAt, setChar.
  by rewrite list_lookup_insert_eq.
Qed.

Lemma charAt_setChar_other buf i j c :
  0 <= i -> 0 <= j -> i <> j -> charAt (setChar buf i c) j = charAt buf j.
Proof.
  intros Hi Hj Hne. unfold charAt, setChar.
  rewrite list_lookup_insert_ne; [done | lia].
Qed.

Lemma length_setChar buf i c : length (setChar buf i c) = length buf.
Proof. apply length_insert. Qed.

(** Clearing an empty buffer leaves the array as it is. *)
Lemma setChar_NUL_empty buf :
  (0 < length buf)%nat -> charAt buf 0 = NUL -> setChar buf 0 NUL = buf.
Proof.
  unfold charAt, setChar. destruct buf as [|c buf]; cbn; [lia|].
  intros _ Hc. change (c = NUL) in Hc. by subst c.
Qed.

Lemma Inv_goIdle m :
  length (inputBuffer m) = Z.to_nat (PASS_LEN + 1) ->
  0 <= failedAttempts m < MAX_ATTEMPTS ->
  Inv (goIdle m).
Proof.
  intros Hlen Hfa.
  destruct (goIdle_fields m) as (Hs & Hi & Hb & Hf & _).
  destruct (goIdle_pins m) as (Hleds & Hdoor).
  constructor; rewrite ?Hs, ?Hi, ?Hb, ?Hf, ?length_setChar; auto.
  - by vm_compute.
  - lia.
  - split; [lia | discriminate].
  - intros _. split; [apply Hleds|]. split; [apply Hdoor|]. split; [done|].
    rewrite Hb. apply charAt_setChar_same; [done|]. rewrite Hlen.
    unfold PASS_LEN. lia.
Qed.

Lemma Inv_goPrompt m :
  length (inputBuffer m) = Z.to_nat (PASS_LEN + 1) ->
  0 <= failedAttempts m < MAX_ATTEMPTS ->
  Inv (goPrompt m).
Proof.
  intros Hlen Hfa.
  destruct (goPrompt_fields m) as (Hs & Hi & Hb & Hf & _).
  constructor.
  - right; left. exact Hs.
  - rewrite Hi. unfold PASS_LEN. lia.
  - by rewrite Hb, length_setChar.
  - rewrite Hf. lia.
  - rewrite Hf, Hs. split; [lia | discriminate].
  - rewrite Hs. discriminate.
Qed.

(** The assignment [state = State::ENTRY] of [loop], after [goPrompt]. *)
Lemma Inv_set_ENTRY m : Inv m -> state m = PROMPT -> Inv (set_state ENTRY m).
Proof.
  intros [Hs Hi Hb Hf Hl Hidle] Hp.
  constructor; cbn [set_state state inputIndex inputBuffer failedAttempts board].
  - right; right; left. reflexivity.
  - exact Hi.
  - exact Hb.
  - exact Hf.
  - rewrite Hl, Hp. split; discriminate.
  - discriminate.
Qed.

(** Calls that leave the globals alone keep the invariant outside [IDLE]. *)
Lemma Inv_same_globals m m' :
  Inv m ->
  state m' = state m -> state m <> IDLE ->
  inputIndex m' = inputIndex m -> inputBuffer m' = inputBuffer m ->
  failedAttempts m' = failedAttempts m ->
  Inv m'.
Proof.
  intros [Hs Hi Hb Hf Hl Hidle] Es Hne Ei Eb Ef.
  constructor; rewrite ?Es, ?Ei, ?Eb, ?Ef; auto. intros ?. done.
Qed.

(** The same, when nothing the invariant mentions has changed. *)
Lemma Inv_same_idle m m' :
  Inv m ->
  state m' = state m ->
  inputIndex m' = inputIndex m -> inputBuffer m' = inputBuffer m ->
  failedAttempts m' = failedAttempts m ->
  ledRed (board m') = ledRed (board m) -> ledGrn (board m') = ledGrn (board m) ->
  servo1 (board m') = servo1 (board m) -> servo2 (board m') = servo2 (board m) ->
  Inv m'.
Proof.
  intros [Hs Hi Hb Hf Hl Hidle] Es Ei Eb Ef E1 E2 E3 E4.
  constructor; rewrite ?Es, ?Ei, ?Eb, ?Ef; auto.
  unfold leds_off, door_closed, buffer_empty. by rewrite Ei, Eb, E1, E2, E3, E4.
Qed.

Lemma Inv_setup b : Inv (setup (power_on b)).
Proof.
  change (setup (power_on b)) with
    (goIdle (hw (ledsOff >>> noTone PIN_BUZZER >>>
                 servoWrite Servo1 SERVO1_CLOSED >>>
                 servoWrite Servo2 SERVO2_CLOSED) (power_on b))).
  apply Inv_goIdle; [reflexivity | by vm_compute].
Qed.

Lemma Inv_appended k m :
  Inv m -> in_entry m -> inputIndex m < PASS_LEN -> Inv (appended k m).
Proof.
  intros [Hs Hi Hb Hf Hl Hidle] He Hlt.
  destruct (appended_frame k m) as (Es & Ef & _ & _ & _).
  assert (Hidx : inputIndex (appended k m) = inputIndex m + 1).
  { unfold appended. cbn [inputIndex set_inputIndex set_inputBuffer].
    by destruct (_ =? _). }
  assert (Hlen : length (inputBuffer (appended k m)) = length (inputBuffer m)).
  { unfold appended. cbn [inputIndex inputBuffer set_inputIndex set_inputBuffer].
    destruct (_ =? _); cbn [inputBuffer set_inputBuffer set_inputIndex];
      by rewrite ?length_setChar. }
  constructor; rewrite ?Es, ?Ef, ?Hidx, ?Hlen; auto; [lia|].
  intros Hidl. destruct He as [He|He]; rewrite He in Hidl; discriminate.
Qed.

Lemma Inv_goDenied m :
  length (inputBuffer m) = Z.to_nat (PASS_LEN + 1) ->
  0 <= inputIndex m <= PASS_LEN ->
  0 <= failedAttempts m < MAX_ATTEMPTS ->
  Inv (goDenied m).
Proof.
  intros Hlen Hidx Hfa.
  destruct (Z.lt_ge_cases (failedAttempts m + 1) MAX_ATTEMPTS) as [Hr|Hr].
  - destruct (goDenied_retry _ Hr) as (Es & Ei & Eb & Ef & _).
    constructor.
    + right; left. exact Es.
    + rewrite Ei. unfold PASS_LEN. lia.
    + by rewrite Eb, length_setChar.
    + rewrite Ef. lia.
    + rewrite Ef, Es. split; [lia | discriminate].
    + rewrite Es. discriminate.
  - destruct (goDenied_lock m) as (Es & Ei & Eb & Ef & _); [lia|].
    constructor.
    + right; right; right. exact Es.
    + by rewrite Ei.
    + by rewrite Eb.
    + rewrite Ef. lia.
    + rewrite Ef, Es. split; [done | lia].
    + rewrite Es. discriminate.
Qed.

(** A round of the entry phase: [handleKeypad], then [handleTimeout]. *)
Lemma Inv_entry_round key m :
  Inv m -> in_entry m -> Inv (handleTimeout (handleKeypad key m)).
Proof.
  intros HI He. pose proof HI as [Hs Hi Hb Hf Hl Hidle].
  assert (Hnl : state m <> LOCKED) by (destruct He as [E|E]; by rewrite E).
  assert (Hni : state m <> IDLE) by (destruct He as [E|E]; by rewrite E).
  assert (Hfa : 0 <= failedAttempts m < MAX_ATTEMPTS).
  { destruct (decide (failedAttempts m = MAX_ATTEMPTS)) as [E|E];
      [by apply Hl in E | lia]. }
  destruct (decide (key = NUL)) as [->|Hk].
  { rewrite handleKeypad_none.
    destruct (Z.le_gt_cases (sub32 (millis (board m)) (entryStartMs m))
                            IDLE_TIMEOUT_MS).
    - by rewrite handleTimeout_fresh.
    - rewrite handleTimeout_expired by done.
      apply Inv_goIdle; [exact Hb | exact Hfa]. }
  rewrite handleTimeout_after_key by done.
  destruct (key_branch key m) as [? | -> | -> Hlt | -> Hge Hp | -> Hge Hp | Hp Hlt | Hp Hge];
    [done|..].
  - rewrite handleKeypad_cancel. apply Inv_goIdle; [exact Hb | exact Hfa].
  - rewrite handleKeypad_short by done.
    apply (Inv_same_globals m); [done | reflexivity | done | reflexivity..].
  - rewrite handleKeypad_granted by done.
    change (goGranted (set_failedAttempts 0 (touched m))) with
      (goIdle (hw (ledGranted >>> lcdHeader "Access Granted" "Opening..." >>>
                   beepSuccess >>> openDoor >>> delay 2000 >>>
                   lcdHeader "Door Open" "Closing soon" >>> delay 2000 >>>
                   closeDoor >>> delay 500)
                  (set_state GRANTED (set_failedAttempts 0 (touched m))))).
    apply Inv_goIdle; [exact Hb | by vm_compute].
  - rewrite handleKeypad_denied by done.
    apply Inv_goDenied; [exact Hb | exact Hi | exact Hfa].
  - rewrite handleKeypad_append by done.
    apply (Inv_same_globals (appended key (touched m))); try done.
    + apply Inv_appended; [|done..].
      apply (Inv_same_globals m); [done | reflexivity | done | reflexivity..].
    + by destruct (appended_frame key (touched m)) as (-> & _).
  - rewrite handleKeypad_full by done.
    apply (Inv_same_globals m); [done | reflexivity | done | reflexivity..].
Qed.

Lemma Inv_loop motion key m : Inv m -> Inv (loop motion key m).
Proof.
  intros HI. pose proof HI as [Hs Hi Hb Hf Hl Hidle].
  assert (Hnl : state m <> LOCKED -> 0 <= failedAttempts m < MAX_ATTEMPTS).
  { intros Hne. destruct (decide (failedAttempts m = MAX_ATTEMPTS)) as [E|E];
      [by apply Hl in E | lia]. }
  destruct Hs as [Hs|[Hs|[Hs|Hs]]].
  - destruct motion; [|by rewrite loop_idle_still].
    rewrite loop_idle_motion by done.
    apply Inv_set_ENTRY; [|reflexivity].
    apply Inv_goPrompt; [exact Hb|]. apply Hnl. by rewrite Hs.
  - rewrite loop_entry by (by left). apply Inv_entry_round; [done | by left].
  - rewrite loop_entry by (by right). apply Inv_entry_round; [done | by right].
  - rewrite loop_locked by done.
    destruct (Z.le_gt_cases LOCKOUT_MS (sub32 (millis (board m)) (lockoutStartMs m))).
    + rewrite handleLockout_expired by done.
      apply Inv_goIdle; [exact Hb | by vm_compute].
    + rewrite handleLockout_waiting by done.
      apply (Inv_same_globals m);
        [done | reflexivity | by rewrite Hs | reflexivity..].
Qed.

Lemma Inv_wait dt m : Inv m -> Inv (hw (advance dt) m).
Proof.
  intros HI. apply (Inv_same_idle m); [done | reflexivity..].
Qed.

Lemma reachable_Inv m : reachable m -> Inv m.
Proof.
  induction 1 as [b | dt m _ IH | motion key m _ IH].
  - apply Inv_setup.
  - by apply Inv_wait.
  - by apply Inv_loop.
Qed.

Lemma reachable_tick i m : reachable m -> reachable (tick i m).
Proof. intros H. unfold tick. by apply reach_loop, reach_wait. Qed.

Lemma reachable_run ins m : reachable m -> reachable (run ins m).
Proof.
  revert m. induction ins as [|i ins IH]; intros m H; [done|].
  apply IH. by apply reachable_tick.
Qed.

(** ** Traces of the transitions *)

Lemma goIdle_trace m :
  trace (board (goIdle m)) = trace (board m) ++ goIdle_events.
Proof.
  change (board (goIdle m)) with
    ((ledsOff >>> closeDoor >>> lcdHeader "System Idle" "Waiting motion") (board m)).
  apply trace_of; [solve_appends | by vm_compute].
Qed.

Lemma goGranted_split m : goGranted m = goIdle (door_cycled m).
Proof. reflexivity. Qed.

Lemma door_cycled_trace m :
  trace (board (door_cycled m)) = trace (board m) ++ granted_events.
Proof.
  unfold door_cycled. cbn [board hw set_state].
  apply trace_of; [solve_appends | by vm_compute].
Qed.

(** ** C1 *)

(** C1. In the entry phase, with [PASS_LEN] characters in the buffer that
    equal the password, submit makes the machine [GRANTED] with the failure
    counter at 0, runs the door sequence in order (LED granted, success
    tones, door opened, held, door closed) and then [goIdle] (LEDs off), and
    the round ends in [IDLE]. *)
Theorem granted_round (motion : bool) (m : Machine) :
  in_entry m ->
  inputIndex m = PASS_LEN ->
  holds_secret (inputBuffer m) ->
  let m' := loop motion "#" m in
  exists mg,
    state mg = GRANTED /\
    failedAttempts mg = 0 /\
    trace (board mg) = trace (board m) ++ granted_events /\
    ledGrn (board mg) = true /\
    m' = goIdle mg /\
    state m' = IDLE /\
    failedAttempts m' = 0 /\
    leds_off (board m') /\
    door_closed (board m') /\
    trace (board m') = trace (board m) ++ granted_events ++ goIdle_events.
Proof.
  intros He Hi Hsec m'. subst m'.
  rewrite loop_entry by done.
  rewrite handleTimeout_after_key by done.
  rewrite handleKeypad_granted; [| lia | by apply isPasswordCorrect_spec].
  rewrite goGranted_split.
  set (m0 := set_failedAttempts 0 (touched m)).
  exists (door_cycled m0).
  assert (Htr : trace (board (door_cycled m0)) = trace (board m) ++ granted_events)
    by (rewrite door_cycled_trace; reflexivity).
  repeat split; try exact Htr.
  rewrite goIdle_trace, Htr. by rewrite <- app_assoc.
Qed.

Lemma granted_round_witness :
  state (loop false "#" full_entry) = IDLE /\
  failedAttempts (loop false "#" full_entry) = 0.
Proof.
  destruct (granted_round false full_entry) as (mg & _ & _ & _ & _ & _ & Hs & Hf & _).
  - right. reflexivity.
  - reflexivity.
  - apply isPasswordCorrect_spec. reflexivity.
  - split; [exact Hs | exact Hf].
Defined.

(** ** C3 *)

(** C3. In the entry phase, submit with fewer than [PASS_LEN] characters
    leaves the failure counter, the buffer, its length and the state as
    they were; it shows the notice, waits a second and shows the prompt
    again with the masked progress of the characters typed so far. *)
Theorem short_submit_round (motion : bool) (m : Machine) :
  in_entry m ->
  inputIndex m < PASS_LEN ->
  let m' := loop motion "#" m in
  failedAttempts m' = failedAttempts m /\
  inputBuffer m' = inputBuffer m /\
  inputIndex m' = inputIndex m /\
  state m' = state m /\
  lockoutStartMs m' = lockoutStartMs m /\
  entryStartMs m' = millis (board m) /\
  ledRed (board m') = ledRed (board m) /\
  ledGrn (board m') = ledGrn (board m) /\
  servo1 (board m') = servo1 (board m) /\
  servo2 (board m') = servo2 (board m) /\
  trace (board m') =
    trace (board m) ++
    lcdHeader_events "Password short" "Enter 8 chars" ++
    [Delay 1000] ++
    lcdHeader_events "Enter Password:" EmptyString ++
    masked_events (inputIndex m).
Proof.
  intros He Hi m'. subst m'.
  rewrite loop_entry by done.
  rewrite handleTimeout_after_key by done.
  rewrite handleKeypad_short by done.
  repeat split.
  change (trace
            ((lcdHeader "Password short" "Enter 8 chars" >>> delay 1000 >>>
              lcdHeader "Enter Password:" EmptyString >>>
              printMasked (inputIndex m)) (board m)) = 
          trace (board m) ++
          lcdHeader_events "Password short" "Enter 8 chars" ++
          [Delay 1000] ++
          lcdHeader_events "Enter Password:" EmptyString ++
          masked_events (inputIndex m)).
  apply trace_of; [solve_appends | reflexivity].
Qed.

Lemma short_submit_round_witness :
  failedAttempts (loop false "#" (run (approach :: press "1234") (setup (power_on blank)))) = 0 /\
  inputIndex (loop false "#" (run (approach :: press "1234") (setup (power_on blank)))) = 4.
Proof.
  destruct (short_submit_round false
              (run (approach :: press "1234") (setup (power_on blank))))
    as (Hf & _ & Hi & _).
  - right. reflexivity.
  - reflexivity.
  - split; [exact Hf | exact Hi].
Defined.

(** ** C4 *)

(** C4, as stated, fails: the buffer is full, the key is an ordinary one,
    and the round moves the start of the idle period (the entry deadline)
    from 3000 to 3050. *)
Lemma full_buffer_key_moves_deadline :
  in_entry full_entry_later /\
  inputIndex full_entry_later = PASS_LEN /\
  plain_key "9" /\
  entryStartMs full_entry_later = 3000 /\
  entryStartMs (loop false "9" full_entry_later) = 3050.
Proof.
  split; [right; reflexivity|]. split; [reflexivity|].
  split; [repeat split; discriminate|]. split; reflexivity.
Qed.

(** C4, amended. In the entry phase with [PASS_LEN] characters in the
    buffer, an ordinary key only sounds the short tone: the buffer, its
    length, the failure counter and the state stay as they were, and so do
    the LEDs, the door and the clock; the idle period restarts at the time
    of the key press. *)
Theorem full_buffer_key_round (motion : bool) (k : ascii) (m : Machine) :
  in_entry m ->
  inputIndex m = PASS_LEN ->
  plain_key k ->
  let m' := loop motion k m in
  inputBuffer m' = inputBuffer m /\
  inputIndex m' = inputIndex m /\
  failedAttempts m' = failedAttempts m /\
  state m' = state m /\
  lockoutStartMs m' = lockoutStartMs m /\
  entryStartMs m' = millis (board m) /\
  clock (board m') = clock (board m) /\
  ledRed (board m') = ledRed (board m) /\
  ledGrn (board m') = ledGrn (board m) /\
  servo1 (board m') = servo1 (board m) /\
  servo2 (board m') = servo2 (board m) /\
  trace (board m') = trace (board m) ++ [Tone PIN_BUZZER 600 50].
Proof.
  intros He Hi Hk m'. subst m'.
  rewrite loop_entry by done.
  rewrite handleTimeout_after_key by apply Hk.
  rewrite handleKeypad_full by (done || lia).
  repeat split.
Qed.

Lemma full_buffer_key_round_witness :
  inputBuffer (loop false "9" full_entry_later) = inputBuffer full_entry_later /\
  entryStartMs (loop false "9" full_entry_later) = millis (board full_entry_later).
Proof.
  destruct (full_buffer_key_round false "9" full_entry_later)
    as (Hb & _ & _ & _ & _ & He & _).
  - right. reflexivity.
  - reflexivity.
  - repeat split; discriminate.
  - split; [exact Hb | exact He].
Defined.

(** ** C5 *)

Lemma timeLeft_elapsed m :
  before_deadline m ->
  timeLeft m = LOCKOUT_MS - sub32 (millis (board m)) (lockoutStartMs m).
Proof.
  unfold before_deadline, timeLeft, lockoutDeadline32, sub32, add32, wrap32.
  intros H. rewrite Zminus_mod_idemp_l.
  set (n := millis (board m)) in *. set (s := lockoutStartMs m) in *.
  replace (s + LOCKOUT_MS - n) with (LOCKOUT_MS - (n - s)) by lia.
  rewrite <- Zminus_mod_idemp_r.
  assert (0 <= (n - s) mod ULONG_MOD < ULONG_MOD)
    by (apply Z.mod_pos_bound; by vm_compute).
  apply Z.mod_small. unfold LOCKOUT_MS, ULONG_MOD in *. lia.
Qed.

(** C5, as stated, fails: 13600 ms before the deadline the display says 13,
    not [ceil (13600 / 1000) = 14]. *)
Lemma countdown_not_ceiling :
  state locked_out_later = LOCKED /\
  before_deadline locked_out_later /\
  timeLeft locked_out_later = 13600 /\
  ceil_div (timeLeft locked_out_later) 1000 = 14 /\
  trace (board (loop false NUL locked_out_later)) =
    trace (board locked_out_later) ++ countdown_events 13 /\
  trace (board (loop false NUL locked_out_later)) <>
    trace (board locked_out_later) ++
    countdown_events (ceil_div (timeLeft locked_out_later) 1000).
Proof.
  assert (Htr : trace (board (loop false NUL locked_out_later)) =
                trace (board locked_out_later) ++ countdown_events 13).
  { vm_compute. reflexivity. }
  assert (Hc : ceil_div (timeLeft locked_out_later) 1000 = 14)
    by (vm_compute; reflexivity).
  split; [vm_compute; reflexivity|]. split; [by vm_compute|].
  split; [vm_compute; reflexivity|].
  split; [exact Hc|]. split; [exact Htr|].
  rewrite Htr, Hc. intros H. apply app_inv_head in H. discriminate H.
Qed.

(** C5, amended. While the machine is [LOCKED] and the clock is before the
    deadline, the round stays [LOCKED] and prints the whole seconds left,
    rounded down: [timeLeft / 1000]. *)
Theorem countdown_round (motion : bool) (key : ascii) (m : Machine) :
  state m = LOCKED ->
  before_deadline m ->
  let m' := loop motion key m in
  state m' = LOCKED /\
  trace (board m') = trace (board m) ++ countdown_events (timeLeft m / 1000) /\
  1000 * (timeLeft m / 1000) <= timeLeft m < 1000 * (timeLeft m / 1000) + 1000.
Proof.
  intros Hs Hb m'. subst m'.
  rewrite loop_locked by done.
  rewrite handleLockout_waiting by done.
  rewrite timeLeft_elapsed by done.
  split; [exact Hs|].
  split; [cbn [board hw]; apply trace_of; [solve_appends | reflexivity]|].
  pose proof (Z.mul_div_le (LOCKOUT_MS - sub32 (millis (board m)) (lockoutStartMs m)) 1000).
  pose proof (Z.mul_succ_div_gt (LOCKOUT_MS - sub32 (millis (board m)) (lockoutStartMs m)) 1000).
  lia.
Qed.

Lemma countdown_round_witness :
  trace (board (loop false NUL locked_out_later)) =
  trace (board locked_out_later) ++ countdown_events (timeLeft locked_out_later / 1000).
Proof.
  destruct (countdown_round false NUL locked_out_later) as (_ & Ht & _).
  - reflexivity.
  - by vm_compute.
  - exact Ht.
Defined.

(** ** C6 *)

(** C6, as stated, fails: the machine is [LOCKED], not in the entry phase,
    and the round that ends the lockout empties the buffer. *)
Lemma lockout_expiry_clears_buffer :
  reachable lockout_over /\
  state lockout_over = LOCKED /\
  inputIndex lockout_over = 8 /\
  inputIndex (loop false NUL lockout_over) = 0 /\
  inputBuffer (loop false NUL lockout_over) <> inputBuffer lockout_over.
Proof.
  split.
  { apply reach_wait. unfold locked_out. apply reachable_run, reach_setup. }
  split; [vm_compute; reflexivity|]. split; [vm_compute; reflexivity|].
  split; [vm_compute; reflexivity|].
  vm_compute. discriminate.
Qed.

Lemma appended_buffer k m :
  0 <= inputIndex m < PASS_LEN ->
  length (inputBuffer m) = Z.to_nat (PASS_LEN + 1) ->
  inputIndex (appended k m) = inputIndex m + 1 /\
  charAt (inputBuffer (appended k m)) (inputIndex m) = k /\
  forall j, 0 <= j < inputIndex m ->
            charAt (inputBuffer (appended k m)) j = charAt (inputBuffer m) j.
Proof.
  intros Hi Hlen. unfold appended.
  cbn [inputIndex inputBuffer set_inputIndex set_inputBuffer].
  assert (Hin : (Z.to_nat (inputIndex m) < length (inputBuffer m))%nat)
    by (rewrite Hlen; unfold PASS_LEN in *; lia).
  destruct (_ =? _); cbn [inputIndex inputBuffer set_inputIndex set_inputBuffer].
  - split; [done|]. split.
    + rewrite charAt_setChar_other by (unfold PASS_LEN in *; lia).
      apply charAt_setChar_same; [lia | done].
    + intros j Hj.
      rewrite !charAt_setChar_other by (unfold PASS_LEN in *; lia). done.
  - split; [done|]. split.
    + apply charAt_setChar_same; [lia | done].
    + intros j Hj. rewrite charAt_setChar_other by lia. done.
Qed.

Lemma is_expiry_false m :
  state m = LOCKED -> is_expiry m = false ->
  sub32 (millis (board m)) (lockoutStartMs m) < LOCKOUT_MS.
Proof.
  intros Hst Hex. unfold is_expiry in Hex. rewrite Hst in Hex.
  cbn [State_eqb andb] in Hex.
  by destruct (Z.geb_spec (sub32 (millis (board m)) (lockoutStartMs m)) LOCKOUT_MS).
Qed.

Lemma is_expiry_true m :
  is_expiry m = true ->
  state m = LOCKED /\ LOCKOUT_MS <= sub32 (millis (board m)) (lockoutStartMs m).
Proof.
  unfold is_expiry. intros Hex. apply andb_true_iff in Hex as [Hs Hex].
  split; [by destruct (state m)|].
  by destruct (Z.geb_spec (sub32 (millis (board m)) (lockoutStartMs m)) LOCKOUT_MS).
Qed.

Lemma idle_round_buffer motion key m :
  Inv m -> state m = IDLE ->
  inputIndex (loop motion key m) = inputIndex m /\
  inputBuffer (loop motion key m) = inputBuffer m.
Proof.
  intros [Hs Hi Hb Hf Hl Hidle] Hst.
  destruct (Hidle Hst) as (_ & _ & Hi0 & Hc0).
  destruct motion; [|by rewrite loop_idle_still].
  rewrite loop_idle_motion by done.
  split; [by rewrite Hi0|].
  change (setChar (inputBuffer m) 0 NUL = inputBuffer m).
  apply setChar_NUL_empty; [|done]. rewrite Hb. unfold PASS_LEN. lia.
Qed.

Lemma append_round_buffer motion key m :
  Inv m -> in_entry m -> plain_key key -> inputIndex m < PASS_LEN ->
  inputIndex (loop motion key m) = inputIndex m + 1 /\
  charAt (inputBuffer (loop motion key m)) (inputIndex m) = key /\
  forall j, 0 <= j < inputIndex m ->
            charAt (inputBuffer (loop motion key m)) j = charAt (inputBuffer m) j.
Proof.
  intros [Hs Hi Hb Hf Hl Hidle] He Hk Hlt. rewrite loop_entry by done.
  rewrite handleTimeout_after_key by apply Hk.
  rewrite handleKeypad_append by done.
  apply (appended_buffer key (touched m)); [|exact Hb].
  change (0 <= inputIndex m < PASS_LEN). lia.
Qed.

(** C6, amended. In every reachable machine the number of characters in the
    buffer is between 0 and [PASS_LEN].  A round started in [IDLE] leaves the
    buffer as it is; a round started in [LOCKED] leaves it as it is while
    the lockout lasts, and empties it when the lockout is over; in the entry
    phase an ordinary key is stored behind the characters already there,
    and with a full buffer it is dropped. *)
Theorem buffer_discipline (motion : bool) (key : ascii) (m : Machine) :
  reachable m ->
  let m' := loop motion key m in
  0 <= inputIndex m <= PASS_LEN /\
  (state m = IDLE ->
     inputIndex m' = inputIndex m /\ inputBuffer m' = inputBuffer m) /\
  (state m = LOCKED -> is_expiry m = false ->
     inputIndex m' = inputIndex m /\ inputBuffer m' = inputBuffer m) /\
  (state m = LOCKED -> is_expiry m = true ->
     inputIndex m' = 0 /\ inputBuffer m' = setChar (inputBuffer m) 0 NUL) /\
  (in_entry m -> plain_key key -> inputIndex m = PASS_LEN ->
     inputIndex m' = inputIndex m /\ inputBuffer m' = inputBuffer m) /\
  (in_entry m -> plain_key key -> inputIndex m < PASS_LEN ->
     inputIndex m' = inputIndex m + 1 /\
     charAt (inputBuffer m') (inputIndex m) = key /\
     forall j, 0 <= j < inputIndex m ->
               charAt (inputBuffer m') j = charAt (inputBuffer m) j).
Proof.
  intros Hr m'. subst m'.
  pose proof (reachable_Inv m Hr) as HI.
  split; [apply HI|]. split; [|split; [|split; [|split]]].
  - by apply idle_round_buffer.
  - intros Hst Hex. rewrite loop_locked by done.
    rewrite handleLockout_waiting by (by apply is_expiry_false).
    split; reflexivity.
  - intros Hst Hex. rewrite loop_locked by done.
    rewrite handleLockout_expired by (by apply is_expiry_true).
    split; reflexivity.
  - intros He Hk Hfull. rewrite loop_entry by done.
    rewrite handleTimeout_after_key by apply Hk.
    rewrite handleKeypad_full by (done || lia).
    split; reflexivity.
  - by apply append_round_buffer.
Qed.

Lemma buffer_discipline_witness :
  0 <= inputIndex lockout_over <= PASS_LEN.
Proof.
  destruct (buffer_discipline false NUL lockout_over) as (H & _).
  - apply reach_wait. unfold locked_out. apply reachable_run, reach_setup.
  - exact H.
Defined.

(** ** C7 *)

(** C7, as stated, fails: on a buffer whose first character is wrong the
    function returns after one comparison, not after [PASS_LEN]. *)
Lemma comparison_exits_early :
  isPasswordCorrect wrong_code = false /\
  comparisonsMade wrong_code = 1%nat /\
  comparisonsMade wrong_code <> Z.to_nat PASS_LEN.
Proof. repeat split. vm_compute. discriminate. Qed.

Lemma passwordLoop_all n i buf :
  (forall j, i <= j < i + Z.of_nat n -> charAt buf j = charAt PASSWORD j) ->
  passwordLoop n i buf = (true, n).
Proof.
  revert i. induction n as [|n IH]; intros i H; cbn [passwordLoop]; [done|].
  rewrite (proj2 (Ascii.eqb_eq _ _) (H i ltac:(lia))). cbn [negb].
  rewrite IH; [done|]. intros j Hj. apply H. lia.
Qed.

Lemma passwordLoop_first n i j buf :
  i <= j < i + Z.of_nat n ->
  (forall l, i <= l < j -> charAt buf l = charAt PASSWORD l) ->
  charAt buf j <> charAt PASSWORD j ->
  passwordLoop n i buf = (false, Z.to_nat (j - i + 1)).
Proof.
  revert i. induction n as [|n IH]; intros i Hj Heq Hne; [lia|].
  cbn [passwordLoop].
  destruct (decide (j = i)) as [->|Hji].
  - rewrite (proj2 (Ascii.eqb_neq _ _) Hne). cbn [negb].
    by replace (i - i + 1) with 1 by lia.
  - rewrite (proj2 (Ascii.eqb_eq _ _) (Heq i ltac:(lia))). cbn [negb].
    rewrite (IH (i + 1)); [|lia| intros l Hl; apply Heq; lia | done].
    cbn [fst snd]. f_equal. lia.
Qed.

(** C7, amended. The comparison ranges over the [PASS_LEN] positions and
    returns true exactly when the buffer and the password agree on all of
    them; it leaves at the first position where they differ, so it looks at
    all [PASS_LEN] positions only when the first [PASS_LEN - 1] agree. *)
Theorem comparison_spec (buf : list ascii) :
  (isPasswordCorrect buf = true <-> holds_secret buf) /\
  (holds_secret buf -> comparisonsMade buf = Z.to_nat PASS_LEN) /\
  (forall j, 0 <= j < PASS_LEN ->
     (forall i, 0 <= i < j -> charAt buf i = charAt PASSWORD i) ->
     charAt buf j <> charAt PASSWORD j ->
     isPasswordCorrect buf = false /\ comparisonsMade buf = Z.to_nat (j + 1)).
Proof.
  split; [apply isPasswordCorrect_spec|]. split.
  - intros H. unfold comparisonsMade. rewrite passwordLoop_all; [done|].
    intros j Hj. apply H. unfold PASS_LEN in *. lia.
  - intros j Hj Heq Hne. unfold isPasswordCorrect, comparisonsMade.
    rewrite (passwordLoop_first _ 0 j); [|unfold PASS_LEN in *; lia|done..].
    cbn [fst snd]. split; [done|]. f_equal. lia.
Qed.

Lemma comparison_spec_witness :
  isPasswordCorrect wrong_code = false /\ comparisonsMade wrong_code = 1%nat.
Proof.
  destruct (comparison_spec wrong_code) as (_ & _ & H).
  apply (H 0); [by vm_compute | intros i Hi; lia | discriminate].
Defined.

(** ** C8 *)

(** C8. In a round of the entry phase one handler decides the outcome: with
    a key, the round is what [handleKeypad] makes of it and the time-out
    does not fire, even when the idle period had run out before the key was
    read; without a key, the round is what [handleTimeout] makes of it.  An
    ordinary key pressed after the idle period ran out keeps the machine in
    the entry phase, where the same round without the key ends in [IDLE]. *)
Theorem key_before_timeout (motion : bool) (key : ascii) (m : Machine) :
  in_entry m ->
  (key <> NUL -> loop motion key m = handleKeypad key m) /\
  (key = NUL -> loop motion key m = handleTimeout m) /\
  (IDLE_TIMEOUT_MS < sub32 (millis (board m)) (entryStartMs m) ->
   state (loop motion NUL m) = IDLE /\
   (plain_key key ->
    in_entry (loop motion key m) /\
    entryStartMs (loop motion key m) = millis (board m))).
Proof.
  intros He. split; [|split].
  - intros Hk. rewrite loop_entry by done. by apply handleTimeout_after_key.
  - intros ->. rewrite loop_entry by done. by rewrite handleKeypad_none.
  - intros Hexp. split.
    + rewrite loop_entry by done. rewrite handleKeypad_none.
      by rewrite handleTimeout_expired.
    + intros Hk. rewrite loop_entry by done.
      rewrite handleTimeout_after_key by apply Hk.
      destruct (Z.lt_ge_cases (inputIndex m) PASS_LEN).
      * rewrite handleKeypad_append by done.
        unfold printMaskedProgress, in_entry. cbn [hw state entryStartMs].
        destruct (appended_frame key (touched m)) as (-> & _ & -> & _).
        split; [exact He | reflexivity].
      * rewrite handleKeypad_full by done. split; [exact He | reflexivity].
Qed.

Lemma key_before_timeout_witness :
  loop false "5" stale_entry = handleKeypad "5" stale_entry.
Proof.
  destruct (key_before_timeout false "5" stale_entry) as (H & _).
  - right. reflexivity.
  - apply H. discriminate.
Defined.

(** ** C9 *)

(** Compute the globals, leaving board commands, comparisons and buffer
    writes folded. *)
Ltac globals :=
  lazy -[closeDoor openDoor ledsOff ledGranted ledDenied beepSuccess beepError
         beepLockout lcdHeader delay printMasked emit tone noTone servoWrite
         digitalWrite advance isPasswordCorrect setChar sub32 add32
         Z.add Z.sub Z.div Z.ltb Z.geb Z.gtb Z.eqb Ascii.eqb
         PASS_LEN MAX_ATTEMPTS IDLE_TIMEOUT_MS LOCKOUT_MS].

Ltac split_ifs :=
  repeat (match goal with
          | |- context [if ?c then _ else _] => destruct c
          end; globals).

Lemma merge_goIdle m : merge (goIdle m) = Merged.goIdle (merge m).
Proof. destruct m. globals. reflexivity. Qed.

Lemma merge_goPrompt m : merge (goPrompt m) = Merged.goEntry (merge m).
Proof. destruct m. globals. reflexivity. Qed.

Lemma merge_goGranted m : merge (goGranted m) = Merged.goGranted (merge m).
Proof. destruct m. globals. reflexivity. Qed.

Lemma merge_goDenied m : merge (goDenied m) = Merged.goDenied (merge m).
Proof. destruct m. globals. split_ifs; reflexivity. Qed.

Lemma merge_handleKeypad key m :
  merge (handleKeypad key m) = Merged.handleKeypad key (merge m).
Proof. destruct m. globals. split_ifs; reflexivity. Qed.

Lemma merge_handleTimeout m :
  merge (handleTimeout m) = Merged.handleTimeout (merge m).
Proof.
  destruct m as [s buf idx fa es ls b]. destruct s; globals; split_ifs; reflexivity.
Qed.

Lemma merge_handleLockout m :
  merge (handleLockout m) = Merged.handleLockout (merge m).
Proof. destruct m. globals. split_ifs; reflexivity. Qed.

Lemma merge_loop motion key m :
  merge (loop motion key m) = Merged.loop motion key (merge m).
Proof.
  unfold loop, Merged.loop.
  change (Merged.state (merge m)) with (mergeState (state m)).
  destruct (state m) eqn:Hs;
    cbn [State_eqb orb mergeState Merged.AuthState_eqb]; try reflexivity.
  - destruct motion; [|reflexivity]. destruct m. globals. reflexivity.
  - unfold seq_cmd. rewrite merge_handleTimeout. f_equal. apply merge_handleKeypad.
  - unfold seq_cmd. rewrite merge_handleTimeout. f_equal. apply merge_handleKeypad.
  - apply merge_handleLockout.
Qed.

Lemma merge_setup b : merge (setup (power_on b)) = Merged.setup (Merged.power_on b).
Proof. globals. reflexivity. Qed.

(** C9. [merge] is a simulation of the six-state code by the five-state
    machine: it relates the machines after [setup], commutes with the time
    going by, with [handleKeypad], [handleTimeout] and a round of [loop];
    and a machine in [PROMPT] and the same machine in [ENTRY] are taken by
    each of them to machines that [merge] cannot tell apart. *)
Theorem prompt_is_entry (motion : bool) (key : ascii) (m : Machine) :
  (forall b, merge (setup (power_on b)) = Merged.setup (Merged.power_on b)) /\
  (forall dt, merge (hw (advance dt) m) = Merged.hw (advance dt) (merge m)) /\
  merge (handleKeypad key m) = Merged.handleKeypad key (merge m) /\
  merge (handleTimeout m) = Merged.handleTimeout (merge m) /\
  merge (loop motion key m) = Merged.loop motion key (merge m) /\
  merge (handleKeypad key (set_state PROMPT m)) =
    merge (handleKeypad key (set_state ENTRY m)) /\
  merge (handleTimeout (set_state PROMPT m)) =
    merge (handleTimeout (set_state ENTRY m)) /\
  merge (loop motion key (set_state PROMPT m)) =
    merge (loop motion key (set_state ENTRY m)).
Proof.
  split; [apply merge_setup|]. split; [reflexivity|].
  split; [apply merge_handleKeypad|].
  split; [apply merge_handleTimeout|].
  split; [apply merge_loop|].
  split; [by rewrite !merge_handleKeypad|].
  split; [by rewrite !merge_handleTimeout | by rewrite !merge_loop].
Qed.

(** ** C10 *)

Lemma into_idle_entry_round key m :
  Inv m -> in_entry m ->
  state (handleTimeout (handleKeypad key m)) = IDLE ->
  exists m0, handleTimeout (handleKeypad key m) = goIdle m0.
Proof.
  intros HI He. pose proof HI as [Hs Hi Hb Hf Hl Hidle].
  assert (Hni : state m <> IDLE) by (destruct He as [E|E]; by rewrite E).
  destruct (decide (key = NUL)) as [->|Hk].
  { rewrite handleKeypad_none.
    destruct (Z.le_gt_cases (sub32 (millis (board m)) (entryStartMs m))
                            IDLE_TIMEOUT_MS).
    - rewrite handleTimeout_fresh by done. intros E. by destruct Hni.
    - rewrite handleTimeout_expired by done. intros _. by eexists. }
  rewrite handleTimeout_after_key by done.
  destruct (key_branch key m) as [? | -> | -> Hlt | -> Hge Hp | -> Hge Hp | Hp Hlt | Hp Hge];
    [done|..].
  - rewrite handleKeypad_cancel. intros _. by eexists.
  - rewrite handleKeypad_short by done. intros E. by destruct Hni.
  - rewrite handleKeypad_granted by done. rewrite goGranted_split.
    intros _. by eexists.
  - rewrite handleKeypad_denied by done. intros E. exfalso.
    destruct (Z.lt_ge_cases (failedAttempts (touched m) + 1) MAX_ATTEMPTS) as [Hr|Hr].
    + destruct (goDenied_retry _ Hr) as (Es & _). rewrite Es in E. discriminate.
    + destruct (goDenied_lock (touched m)) as (Es & _); [lia|].
      rewrite Es in E. discriminate.
  - rewrite handleKeypad_append by done. intros E. exfalso. apply Hni.
    destruct (appended_frame key (touched m)) as (Es & _).
    unfold printMaskedProgress in E. cbn [hw state] in E. by rewrite Es in E.
  - rewrite handleKeypad_full by done. intros E. by destruct Hni.
Qed.

(** C10. [setup] ends in [goIdle], and a round that leaves another state for
    [IDLE] ends in [goIdle] too; so in every reachable machine in [IDLE]
    both LEDs are off, both servos are at their closed angle and the buffer
    is empty. *)
Theorem idle_through_goIdle (motion : bool) (key : ascii) (m : Machine) :
  reachable m ->
  (state m = IDLE ->
     leds_off (board m) /\ door_closed (board m) /\ buffer_empty m) /\
  (state m <> IDLE -> state (loop motion key m) = IDLE ->
     exists m0, loop motion key m = goIdle m0) /\
  (forall b, exists m0, setup (power_on b) = goIdle m0).
Proof.
  intros Hr. pose proof (reachable_Inv m Hr) as HI.
  pose proof HI as [Hs Hi Hb Hf Hl Hidle].
  split; [exact Hidle|]. split; [|intros b; by eexists].
  intros Hni. destruct Hs as [Hs|[Hs|[Hs|Hs]]]; [done|..].
  - rewrite loop_entry by (by left). apply into_idle_entry_round; [done | by left].
  - rewrite loop_entry by (by right). apply into_idle_entry_round; [done | by right].
  - rewrite loop_locked by done.
    destruct (Z.le_gt_cases LOCKOUT_MS (sub32 (millis (board m)) (lockoutStartMs m))).
    + rewrite handleLockout_expired by done. intros _. by eexists.
    + rewrite handleLockout_waiting by done. intros E.
      change (state m = IDLE) in E. by rewrite Hs in E.
Qed.

Lemma idle_through_goIdle_witness :
  leds_off (board (setup (power_on blank))) /\
  door_closed (board (setup (power_on blank))) /\
  buffer_empty (setup (power_on blank)).
Proof.
  destruct (idle_through_goIdle false NUL (setup (power_on blank))) as (H & _).
  - apply reach_setup.
  - apply H. reflexivity.
Defined.

(** ** C2 *)

Lemma submits_full_spec key m :
  submits_full key m = true <->
  in_entry m /\ key = "#"%char /\ PASS_LEN <= inputIndex m.
Proof.
  unfold submits_full. rewrite !andb_true_iff, entry_stateb_true.
  rewrite Ascii.eqb_eq, negb_true_iff, Z.ltb_ge. tauto.
Qed.

Lemma is_granted_spec key m :
  is_granted key m = true <->
  in_entry m /\ key = "#"%char /\ PASS_LEN <= inputIndex m /\
  isPasswordCorrect (inputBuffer m) = true.
Proof.
  unfold is_granted. rewrite andb_true_iff, submits_full_spec. tauto.
Qed.

Lemma is_denied_spec key m :
  is_denied key m = true <->
  in_entry m /\ key = "#"%char /\ PASS_LEN <= inputIndex m /\
  isPasswordCorrect (inputBuffer m) = false.
Proof.
  unfold is_denied. rewrite andb_true_iff, submits_full_spec, negb_true_iff. tauto.
Qed.

Lemma not_expiry_outside m : state m <> LOCKED -> is_expiry m = false.
Proof. intros H. unfold is_expiry. by destruct (state m). Qed.

Lemma not_submit_outside key m :
  ~ in_entry m -> is_granted key m = false /\ is_denied key m = false.
Proof.
  intros H. split.
  - destruct (is_granted key m) eqn:E; [|done].
    apply is_granted_spec in E. tauto.
  - destruct (is_denied key m) eqn:E; [|done].
    apply is_denied_spec in E. tauto.
Qed.

Lemma not_submit_key key m :
  key <> "#"%char -> is_granted key m = false /\ is_denied key m = false.
Proof.
  intros H. split.
  - destruct (is_granted key m) eqn:E; [|done].
    apply is_granted_spec in E. tauto.
  - destruct (is_denied key m) eqn:E; [|done].
    apply is_denied_spec in E. tauto.
Qed.

Lemma not_submit_short key m :
  inputIndex m < PASS_LEN -> is_granted key m = false /\ is_denied key m = false.
Proof.
  intros H. split.
  - destruct (is_granted key m) eqn:E; [|done].
    apply is_granted_spec in E. lia.
  - destruct (is_denied key m) eqn:E; [|done].
    apply is_denied_spec in E. lia.
Qed.

Lemma counter_step_entry key m :
  in_entry m -> CounterStep key m (handleTimeout (handleKeypad key m)).
Proof.
  intros He.
  assert (Hnl : state m <> LOCKED) by (destruct He as [E|E]; by rewrite E).
  pose proof (not_expiry_outside m Hnl) as Hex.
  destruct (decide (key = NUL)) as [->|Hk].
  { destruct (not_submit_key NUL m) as (Hg & Hd); [discriminate|].
    rewrite handleKeypad_none.
    destruct (Z.le_gt_cases (sub32 (millis (board m)) (entryStartMs m))
                            IDLE_TIMEOUT_MS).
    - rewrite handleTimeout_fresh by done. by apply StepOther.
    - rewrite handleTimeout_expired by done.
      apply StepOther; try done. }
  rewrite handleTimeout_after_key by done.
  destruct (key_branch key m) as [? | -> | -> Hlt | -> Hge Hp | -> Hge Hp | Hp Hlt | Hp Hge];
    [done|..].
  - destruct (not_submit_key "*" m) as (Hg & Hd); [discriminate|].
    rewrite handleKeypad_cancel. apply StepOther; try done.
  - destruct (not_submit_short "#" m Hlt) as (Hg & Hd).
    rewrite handleKeypad_short by done. apply StepOther; try done.
  - rewrite handleKeypad_granted by done.
    apply StepGranted; [by apply is_granted_spec | reflexivity..].
  - rewrite handleKeypad_denied by done.
    apply StepDenied; [by apply is_denied_spec|].
    destruct (Z.lt_ge_cases (failedAttempts (touched m) + 1) MAX_ATTEMPTS) as [Hr|Hr].
    + by destruct (goDenied_retry _ Hr) as (_ & _ & _ & -> & _).
    + destruct (goDenied_lock (touched m)) as (_ & _ & _ & -> & _); [lia | done].
  - destruct (not_submit_key key m) as (Hg & Hd); [apply Hp|].
    rewrite handleKeypad_append by done.
    destruct (appended_frame key (touched m)) as (Es & Ef & _ & El & _).
    apply StepOther; try done.
    unfold printMaskedProgress. cbn [hw state]. by rewrite Es.
  - destruct (not_submit_key key m) as (Hg & Hd); [apply Hp|].
    rewrite handleKeypad_full by done. apply StepOther; try done.
Qed.

Lemma counter_step motion key m :
  Inv m -> CounterStep key m (loop motion key m).
Proof.
  intros [Hs Hi Hb Hf Hl Hidle].
  destruct Hs as [Hs|[Hs|[Hs|Hs]]].
  - destruct (not_submit_outside key m) as (Hg & Hd).
    { intros [E|E]; rewrite Hs in E; discriminate. }
    assert (Hex : is_expiry m = false)
      by (apply not_expiry_outside; by rewrite Hs).
    destruct motion.
    + rewrite loop_idle_motion by done. apply StepOther; try done.
    + rewrite loop_idle_still by done. by apply StepOther.
  - rewrite loop_entry by (by left). apply counter_step_entry. by left.
  - rewrite loop_entry by (by right). apply counter_step_entry. by right.
  - destruct (not_submit_outside key m) as (Hg & Hd).
    { intros [E|E]; rewrite Hs in E; discriminate. }
    rewrite loop_locked by done.
    destruct (Z.le_gt_cases LOCKOUT_MS (sub32 (millis (board m)) (lockoutStartMs m))).
    + rewrite handleLockout_expired by done.
      apply StepExpiry; [|reflexivity..].
      unfold is_expiry. rewrite Hs. cbn [State_eqb andb].
      by destruct (Z.geb_spec (sub32 (millis (board m)) (lockoutStartMs m)) LOCKOUT_MS);
        [|lia].
    + rewrite handleLockout_waiting by done.
      apply StepOther; try done.
      unfold is_expiry. rewrite Hs. cbn [State_eqb andb].
      by destruct (Z.geb_spec (sub32 (millis (board m)) (lockoutStartMs m)) LOCKOUT_MS);
        [lia|].
Qed.

Lemma step_kinds_exclusive key m :
  (is_granted key m = true -> is_denied key m = false /\ is_expiry m = false) /\
  (is_denied key m = true -> is_granted key m = false /\ is_expiry m = false) /\
  (is_expiry m = true -> is_granted key m = false /\ is_denied key m = false).
Proof.
  split; [|split].
  - intros (He & _ & _ & Hp)%is_granted_spec. split.
    + destruct (is_denied key m) eqn:E; [|done].
      apply is_denied_spec in E as (_ & _ & _ & E). congruence.
    + apply not_expiry_outside. destruct He as [E|E]; by rewrite E.
  - intros (He & _ & _ & Hp)%is_denied_spec. split.
    + destruct (is_granted key m) eqn:E; [|done].
      apply is_granted_spec in E as (_ & _ & _ & E). congruence.
    + apply not_expiry_outside. destruct He as [E|E]; by rewrite E.
  - intros (Hs & _)%is_expiry_true. apply not_submit_outside.
    intros [E|E]; rewrite Hs in E; discriminate.
Qed.

(** C2. In every reachable machine the failure counter is between 0 and
    [MAX_ATTEMPTS], and it is [MAX_ATTEMPTS] exactly when the machine is
    [LOCKED].  A round enters [LOCKED] only by the denial that takes the
    counter from [MAX_ATTEMPTS - 1] to [MAX_ATTEMPTS]; while the lockout
    lasts, rounds leave the counter and the start of the lockout alone.  The
    counter goes to 0 on a granted round and on the round that ends the
    lockout, goes up by one on a denied round, and is unchanged by every
    other round. *)
Theorem attempt_counter (motion : bool) (key : ascii) (m : Machine) :
  reachable m ->
  let m' := loop motion key m in
  0 <= failedAttempts m <= MAX_ATTEMPTS /\
  (failedAttempts m = MAX_ATTEMPTS <-> state m = LOCKED) /\
  (state m <> LOCKED -> state m' = LOCKED ->
     is_denied key m = true /\
     failedAttempts m = MAX_ATTEMPTS - 1 /\ failedAttempts m' = MAX_ATTEMPTS) /\
  (state m = LOCKED -> is_expiry m = false ->
     state m' = LOCKED /\
     failedAttempts m' = failedAttempts m /\
     lockoutStartMs m' = lockoutStartMs m) /\
  (is_expiry m = true ->
     state m = LOCKED /\ state m' = IDLE /\ failedAttempts m' = 0) /\
  (is_granted key m = true -> state m' = IDLE /\ failedAttempts m' = 0) /\
  (is_denied key m = true -> failedAttempts m' = failedAttempts m + 1) /\
  (is_granted key m = false -> is_denied key m = false -> is_expiry m = false ->
     failedAttempts m' = failedAttempts m).
Proof.
  intros Hr m'.
  pose proof (reachable_Inv m Hr) as HI.
  pose proof (Inv_loop motion key m HI) as HI'. fold m' in HI'.
  pose proof (counter_step motion key m HI) as Hstep. fold m' in Hstep.
  destruct (step_kinds_exclusive key m) as (Xg & Xd & Xe).
  destruct HI as [_ _ _ Hf Hl _]. destruct HI' as [_ _ _ Hf' Hl' _].
  split; [exact Hf|]. split; [exact Hl|].
  assert (Hentry : forall P : Prop,
             is_granted key m = true \/ is_denied key m = true ->
             state m = LOCKED -> P).
  { intros P [(He & _)%is_granted_spec | (He & _)%is_denied_spec] Hs;
      destruct He as [E|E]; congruence. }
  destruct Hstep as [Hg Hs' Hfa | Hd Hfa | He Hs' Hfa | Hg Hd He Hfa Hls Hst].
  - destruct (Xg Hg) as (Hd & He).
    split; [intros _ E; congruence|].
    split; [intros E _; apply Hentry; tauto|].
    split; [intros E; congruence|].
    split; [intros _; tauto|].
    split; [intros E; congruence|].
    intros E; congruence.
  - destruct (Xd Hd) as (Hg & He).
    split; [intros _ E; apply Hl' in E; split; [done | lia]|].
    split; [intros E _; apply Hentry; tauto|].
    split; [intros E; congruence|].
    split; [intros E; congruence|].
    split; [intros _; exact Hfa|].
    intros _ E; congruence.
  - destruct (Xe He) as (Hg & Hd).
    pose proof (is_expiry_true m He) as (Hs & _).
    split; [intros E _; congruence|].
    split; [intros _ E; congruence|].
    split; [intros _; tauto|].
    split; [intros E; congruence|].
    split; [intros E; congruence|].
    intros _ _ E; congruence.
  - split; [intros E1 E2; tauto|].
    split; [intros E _; split; [apply Hl'; rewrite Hfa; by apply Hl | done]|].
    split; [intros E; congruence|].
    split; [intros E; congruence|].
    split; [intros E; congruence|].
    intros _ _ _; exact Hfa.
Qed.

Lemma attempt_counter_witness :
  0 <= failedAttempts locked_out <= MAX_ATTEMPTS /\
  (failedAttempts locked_out = MAX_ATTEMPTS <-> state locked_out = LOCKED).
Proof.
  destruct (attempt_counter false NUL locked_out) as (H1 & H2 & _).
  - unfold locked_out. apply reachable_run, reach_setup.
  - split; [exact H1 | exact H2].
Defined.

(** ** The scenarios of the design, run on the code *)

(** Four keys, then nothing for eleven seconds: back to [IDLE], buffer
    empty, counter untouched. *)
Example scenario_timeout :
  let m := loop false NUL stale_entry in
  state m = IDLE /\ inputIndex m = 0 /\ charAt (inputBuffer m) 0 = NUL /\
  failedAttempts m = 0.
Proof. vm_compute. repeat split. Qed.

(** A wrong code: one failure counted, back at the prompt. *)
Example scenario_denied :
  let m := run (approach :: press "87654321#") (setup (power_on blank)) in
  state m = PROMPT /\ failedAttempts m = 1 /\ inputIndex m = 0.
Proof. vm_compute. repeat split. Qed.

(** Three wrong codes: locked out; fifteen seconds later: [IDLE], counter 0. *)
Example scenario_lockout :
  state locked_out = LOCKED /\ failedAttempts locked_out = 3 /\
  state (loop false NUL lockout_over) = IDLE /\
  failedAttempts (loop false NUL lockout_over) = 0.
Proof. vm_compute. repeat split. Qed.

(** The right code: the round ends in [IDLE] with the door shut. *)
Example scenario_granted :
  let m := run (approach :: press "12345678#") (setup (power_on blank)) in
  state m = IDLE /\ failedAttempts m = 0 /\
  servo1 (board m) = SERVO1_CLOSED /\ servo2 (board m) = SERVO2_CLOSED.
Proof. vm_compute. repeat split. Qed.

(** Cancel with four characters typed. *)
Example scenario_cancel :
  let m := run (approach :: press "1234*") (setup (power_on blank)) in
  state m = IDLE /\ inputIndex m = 0 /\ charAt (inputBuffer m) 0 = NUL.
Proof. vm_compute. repeat split. Qed.

(** A ninth key on a full buffer. *)
Example scenario_full :
  let m := loop false "9" full_entry_later in
  inputBuffer m = inputBuffer full_entry_later /\
  inputIndex m = 8 /\ state m = ENTRY.
Proof. vm_compute. repeat split. Qed.

(** ** Further properties: how long the helpers take *)

Lemma sub32_chain c0 c1 c2 :
  wrap32 (sub32 c1 c0 + sub32 c2 c1) = sub32 c2 c0.
Proof.
  unfold sub32, wrap32. rewrite <- Zplus_mod. f_equal. lia.
Qed.

Lemma takes_emit e : takes (emit e) 0.
Proof. intros b. apply sub32_same. Qed.

Lemma takes_digitalWrite pin v : takes (digitalWrite pin v) 0.
Proof. intros b. apply sub32_same. Qed.

Lemma takes_servoWrite s deg : takes (servoWrite s deg) 0.
Proof. intros b. apply sub32_same. Qed.

Lemma takes_skip : takes skip 0.
Proof. intros b. apply sub32_same. Qed.

Lemma takes_delay ms : takes (delay ms) (wrap32 ms).
Proof. intros b. apply sub32_add32. Qed.

Lemma takes_seq f g d1 d2 :
  takes f d1 -> takes g d2 -> takes (f >>> g) (wrap32 (d1 + d2)).
Proof.
  intros Hf Hg b. unfold seq_cmd.
  rewrite <- (Hf b), <- (Hg (f b)). symmetry. apply sub32_chain.
Qed.

Lemma takes_for_loop n i step body d :
  (forall j, takes (body j) d) ->
  takes (for_loop n i step body) (wrap32 (Z.of_nat n * d)).
Proof.
  intros Hb. revert i. induction n as [|n IH]; intros i b; cbn [for_loop].
  - rewrite sub32_same. reflexivity.
  - rewrite <- (sub32_chain (clock b) (clock (body i b))).
    rewrite (Hb i b), (IH (i + step) (body i b)).
    unfold wrap32. rewrite Zplus_mod_idemp_r. f_equal. lia.
Qed.

(** Add up the time along [>>>]; the sum is left to be computed. *)
Ltac solve_takes :=
  unfold ledsOff, ledGranted, ledDenied, beepSuccess, beepError, beepLockout,
    lcdHeader, printMasked, tone, noTone;
  repeat lazymatch goal with
    | |- takes (_ >>> _) _ => eapply takes_seq
    | |- takes (for_loop _ _ _ _) _ => eapply takes_for_loop; intros ?
    | |- takes (emit _) _ => apply takes_emit
    | |- takes (delay _) _ => apply takes_delay
    | |- takes (digitalWrite _ _) _ => apply takes_digitalWrite
    | |- takes (servoWrite _ _) _ => apply takes_servoWrite
    | |- takes skip _ => apply takes_skip
    end.

Lemma takes_eq f d d' : takes f d -> d = d' -> takes f d'.
Proof. by intros H <-. Qed.

Lemma takes_moveServoSmooth s fromDeg toDeg :
  takes (moveServoSmooth s fromDeg toDeg)
        (wrap32 (SERVO_STEP_DELAY_MS * Z.abs (toDeg - fromDeg))).
Proof.
  unfold moveServoSmooth. destruct (Z.eqb_spec fromDeg toDeg) as [->|Hne].
  - rewrite Z.sub_diag. apply takes_skip.
  - eapply takes_eq; [solve_takes|].
    unfold wrap32, SERVO_STEP_DELAY_MS.
    rewrite Z2Nat.id by lia.
    change (0 + 10 `mod` ULONG_MOD) with 10.
    change (10 `mod` ULONG_MOD) with 10.
    rewrite Z.add_0_r, !Zmod_mod. f_equal. lia.
Qed.

(** ** Further properties: the servo sweep *)

Lemma for_loop_preserves {A : Type} (P : A -> Prop) n i step body (a : A) :
  (forall j x, P x -> P (body j x)) -> P a -> P (for_loop n i step body a).
Proof.
  intros Hb. revert i a. induction n as [|n IH]; intros i a Ha; cbn [for_loop];
    [done|]. apply IH. by apply Hb.
Qed.

Lemma for_loop_positions {A : Type} (tr : A -> list Event)
      (g : Z -> list Event) n pos step (body : Z -> A -> A) (a : A) :
  (forall j x, tr (body j x) = tr x ++ g j) ->
  tr (for_loop n pos step body a)
  = tr a ++ flat_map g (map (fun k => pos + step * k) (seqZ 0 (Z.of_nat n))).
Proof.
  intros Hb. revert pos a. induction n as [|n IH]; intros pos a; cbn [for_loop].
  - cbn. by rewrite app_nil_r.
  - rewrite IH, Hb, <- app_assoc. f_equal.
    rewrite (seqZ_cons 0 (Z.of_nat (S n))) by lia. cbn [map flat_map].
    replace (pos + step * 0) with pos by lia. f_equal. f_equal.
    replace (Z.pred (Z.of_nat (S n))) with (Z.of_nat n) by lia.
    change (Z.succ 0) with (1 + 0). rewrite <- fmap_add_seqZ.
    rewrite <- list_fmap_compose. apply list_fmap_ext.
    intros _ k _. cbn. lia.
Qed.

Lemma length_flat_map_pair {A B : Type} (f g : A -> B) (l : list A) :
  length (flat_map (fun x => [f x; g x]) l) = (2 * length l)%nat.
Proof. induction l as [|x l IH]; cbn [flat_map length app]; lia. Qed.

Lemma sweep_positions fromDeg toDeg :
  fromDeg <> toDeg ->
  map (fun k => fromDeg + (if toDeg >? fromDeg then 1 else -1) * k)
      (seqZ 0 (Z.of_nat (Z.to_nat (Z.abs (toDeg - fromDeg)))))
  = if fromDeg <? toDeg then seqZ fromDeg (toDeg - fromDeg)
    else map (fun k => fromDeg - k) (seqZ 0 (fromDeg - toDeg)).
Proof.
  intros Hne. rewrite Z2Nat.id by lia.
  destruct (Z.gtb_spec toDeg fromDeg), (Z.ltb_spec fromDeg toDeg); try lia.
  - rewrite Z.abs_eq by lia.
    rewrite <- (Z.add_0_r fromDeg) at 2. rewrite <- fmap_add_seqZ.
    apply list_fmap_ext. intros _ k _. lia.
  - replace (Z.abs (toDeg - fromDeg)) with (fromDeg - toDeg) by lia.
    apply list_fmap_ext. intros _ k _. lia.
Qed.

Lemma moveServoSmooth_pins s fromDeg toDeg b :
  fromDeg <> toDeg ->
  servoPos s (moveServoSmooth s fromDeg toDeg b) = toDeg /\
  servoPos (otherServo s) (moveServoSmooth s fromDeg toDeg b)
    = servoPos (otherServo s) b /\
  ledRed (moveServoSmooth s fromDeg toDeg b) = ledRed b /\
  ledGrn (moveServoSmooth s fromDeg toDeg b) = ledGrn b.
Proof.
  intros Hne. unfold moveServoSmooth.
  destruct (Z.eqb_spec fromDeg toDeg) as [?|_]; [done|].
  unfold seq_cmd at 1.
  set (swept := for_loop _ _ _ _ b).
  assert (Hkeep : servoPos (otherServo s) swept = servoPos (otherServo s) b /\
                  ledRed swept = ledRed b /\ ledGrn swept = ledGrn b).
  { subst swept. apply for_loop_preserves; [|done].
    intros j x Hx. by destruct s. }
  destruct Hkeep as (H1 & H2 & H3).
  split; [by destruct s|]. split; [by destruct s|]. done.
Qed.

(** X1. [moveServoSmooth] does nothing at all when the two angles are equal;
    otherwise it writes every angle from [fromDeg] to [toDeg] once, one
    degree at a time and in order, with [SERVO_STEP_DELAY_MS] after each
    but the last, leaves the servo at [toDeg] exactly, leaves the other
    servo and the LEDs alone, and takes [SERVO_STEP_DELAY_MS] per degree. *)
Theorem moveServoSmooth_sweep (s : ServoId) (fromDeg toDeg : Z) (b : Board) :
  (fromDeg = toDeg -> moveServoSmooth s fromDeg toDeg b = b) /\
  (fromDeg <> toDeg ->
   trace (moveServoSmooth s fromDeg toDeg b)
     = trace b ++ sweep_events s fromDeg toDeg /\
   length (sweep_events s fromDeg toDeg)
     = (2 * Z.to_nat (Z.abs (toDeg - fromDeg)) + 1)%nat /\
   servoPos s (moveServoSmooth s fromDeg toDeg b) = toDeg /\
   servoPos (otherServo s) (moveServoSmooth s fromDeg toDeg b)
     = servoPos (otherServo s) b /\
   ledRed (moveServoSmooth s fromDeg toDeg b) = ledRed b /\
   ledGrn (moveServoSmooth s fromDeg toDeg b) = ledGrn b /\
   sub32 (clock (moveServoSmooth s fromDeg toDeg b)) (clock b)
     = wrap32 (SERVO_STEP_DELAY_MS * Z.abs (toDeg - fromDeg))).
Proof.
  split.
  - intros ->. unfold moveServoSmooth. by rewrite Z.eqb_refl.
  - intros Hne.
    assert (Hev : sweep_events s fromDeg toDeg =
                  flat_map (fun pos => [ServoWrite s pos; Delay SERVO_STEP_DELAY_MS])
                    (map (fun k => fromDeg + (if toDeg >? fromDeg then 1 else -1) * k)
                       (seqZ 0 (Z.of_nat (Z.to_nat (Z.abs (toDeg - fromDeg))))))
                  ++ [ServoWrite s toDeg]).
    { unfold sweep_events. cbn zeta. by rewrite sweep_positions. }
    split; [|split].
    + rewrite Hev. unfold moveServoSmooth.
      destruct (Z.eqb_spec fromDeg toDeg) as [?|_]; [done|].
      unfold seq_cmd at 1. cbn [servoWrite emit trace].
      rewrite (for_loop_positions trace
                 (fun pos => [ServoWrite s pos; Delay SERVO_STEP_DELAY_MS])).
      * by rewrite app_assoc.
      * intros j x. unfold seq_cmd. cbn. by rewrite <- app_assoc.
    + rewrite Hev, length_app.
      rewrite (length_flat_map_pair (ServoWrite s) (fun _ => Delay SERVO_STEP_DELAY_MS)).
      rewrite length_map, length_seqZ, Nat2Z.id. cbn [length]. lia.
    + destruct (moveServoSmooth_pins s fromDeg toDeg b Hne) as (H1 & H2 & H3 & H4).
      repeat split; try done. apply takes_moveServoSmooth.
Qed.

Lemma takes_openDoor : takes openDoor 1800.
Proof.
  eapply takes_eq; [eapply takes_seq; apply takes_moveServoSmooth|].
  by vm_compute.
Qed.

Lemma takes_closeDoor : takes closeDoor 1800.
Proof.
  eapply takes_eq; [eapply takes_seq; apply takes_moveServoSmooth|].
  by vm_compute.
Qed.

(** X2. [openDoor] and [closeDoor] do not look at where the servos are: on
    every board they run the same two full sweeps, 1800 ms long, and leave
    the servos at the open (closed) angles and the LEDs alone.  So
    [closeDoor] on a door that is already closed is not a no-op: its first
    command sends servo 1 to the open angle. *)
Theorem door_moves_blindly (b : Board) :
  trace (openDoor b) = trace b ++ openDoor_events /\
  servo1 (openDoor b) = SERVO1_OPEN /\ servo2 (openDoor b) = SERVO2_OPEN /\
  ledRed (openDoor b) = ledRed b /\ ledGrn (openDoor b) = ledGrn b /\
  sub32 (clock (openDoor b)) (clock b) = 1800 /\
  trace (closeDoor b) = trace b ++ closeDoor_events /\
  door_closed (closeDoor b) /\
  ledRed (closeDoor b) = ledRed b /\ ledGrn (closeDoor b) = ledGrn b /\
  sub32 (clock (closeDoor b)) (clock b) = 1800 /\
  head closeDoor_events = Some (ServoWrite Servo1 SERVO1_OPEN) /\
  length closeDoor_events = 362%nat.
Proof.
  split; [apply trace_of; [solve_appends | by vm_compute]|].
  split; [reflexivity|]. split; [reflexivity|].
  split; [reflexivity|]. split; [reflexivity|].
  split; [apply takes_openDoor|].
  split; [apply trace_of; [solve_appends | by vm_compute]|].
  split; [split; reflexivity|].
  split; [reflexivity|]. split; [reflexivity|].
  split; [apply takes_closeDoor|].
  split; by vm_compute.
Qed.

(** ** Further properties: the masked progress *)

(** X3. With [inputIndex] between 0 and [PASS_LEN], [printMaskedProgress]
    moves to the second line and prints [PASS_LEN] cells: a star for each
    character typed, then blanks.  What it prints does not depend on the
    characters in the buffer, and nothing but the display changes. *)
Theorem masked_progress (m : Machine) :
  0 <= inputIndex m <= PASS_LEN ->
  trace (board (printMaskedProgress m))
    = trace (board m) ++
      LcdSetCursor 0 1 :: map LcdPrintChar (masked_cells (inputIndex m)) /\
  length (masked_cells (inputIndex m)) = Z.to_nat PASS_LEN /\
  (forall buf,
     trace (board (printMaskedProgress (set_inputBuffer buf m)))
     = trace (board (printMaskedProgress m))) /\
  clock (board (printMaskedProgress m)) = clock (board m).
Proof.
  intros Hi. split; [|split; [|split]]; try reflexivity.
  - unfold printMaskedProgress. cbn [hw board].
    apply trace_of; [solve_appends|].
    assert (Hc : inputIndex m = 0 \/ inputIndex m = 1 \/ inputIndex m = 2 \/
                 inputIndex m = 3 \/ inputIndex m = 4 \/ inputIndex m = 5 \/
                 inputIndex m = 6 \/ inputIndex m = 7 \/ inputIndex m = 8)
      by (unfold PASS_LEN in Hi; lia).
    destruct Hc as [->|[->|[->|[->|[->|[->|[->|[->| ->]]]]]]]]; by vm_compute.
  - unfold masked_cells. rewrite length_app, !length_replicate.
    unfold PASS_LEN in *. lia.
Qed.

Lemma masked_progress_witness :
  trace (board (printMaskedProgress full_entry))
  = trace (board full_entry) ++
    LcdSetCursor 0 1 :: map LcdPrintChar (masked_cells (inputIndex full_entry)).
Proof.
  destruct (masked_progress full_entry) as (H & _).
  - by vm_compute.
  - exact H.
Defined.

(** ** Further properties: how long a round keeps the loop busy *)

Ltac solve_takes_all :=
  repeat lazymatch goal with
    | |- takes (_ >>> _) _ => eapply takes_seq
    | |- takes openDoor _ => apply takes_openDoor
    | |- takes closeDoor _ => apply takes_closeDoor
    | |- takes _ _ => solve [solve_takes]
    end.

Lemma round_time (F : Board -> Board) d b b' :
  b' = F b -> takes F d -> sub32 (clock b') (clock b) = d.
Proof. intros -> H. apply H. Qed.

Lemma takes_goGranted m :
  sub32 (clock (board (goGranted m))) (clock (board m)) = 10270.
Proof.
  apply (round_time
           (ledGranted >>> lcdHeader "Access Granted" "Opening..." >>>
            beepSuccess >>> openDoor >>> delay 2000 >>>
            lcdHeader "Door Open" "Closing soon" >>> delay 2000 >>>
            closeDoor >>> delay 500 >>>
            ledsOff >>> closeDoor >>> lcdHeader "System Idle" "Waiting motion")).
  - reflexivity.
  - eapply takes_eq; [solve_takes_all | by vm_compute].
Qed.

Lemma goDenied_retry_eq m :
  failedAttempts m + 1 < MAX_ATTEMPTS ->
  goDenied m =
  goPrompt (set_failedAttempts (failedAttempts m + 1)
              (hw (ledDenied >>> lcdHeader "Access Denied" "Try again" >>>
                   beepError >>> delay 1500)
                  (set_state DENIED m))).
Proof.
  intros H. unfold goDenied, seq_cmd.
  cbn [failedAttempts set_failedAttempts hw set_state].
  destruct (Z.geb_spec (failedAttempts m + 1) MAX_ATTEMPTS); [lia|].
  destruct m. globals. reflexivity.
Qed.

Lemma goDenied_lock_eq m :
  MAX_ATTEMPTS <= failedAttempts m + 1 ->
  goDenied m =
  hw (lcdHeader "LOCKED OUT" "Wait 15 sec" >>> beepLockout >>> ledDenied)
     (set_state LOCKED
        (set_lockoutStartMs
           (millis (board (hw (ledDenied >>> lcdHeader "Access Denied" "Try again" >>>
                               beepError >>> delay 1500) m)))
           (set_failedAttempts (failedAttempts m + 1)
              (hw (ledDenied >>> lcdHeader "Access Denied" "Try again" >>>
                   beepError >>> delay 1500)
                  (set_state DENIED m))))).
Proof.
  intros H. unfold goDenied, seq_cmd.
  cbn [failedAttempts set_failedAttempts hw set_state].
  destruct (Z.geb_spec (failedAttempts m + 1) MAX_ATTEMPTS); [|lia].
  destruct m. globals. reflexivity.
Qed.

(** X4. How long each kind of round keeps [loop] from polling again, on the
    clock: nothing for a missing or an ordinary key, for a round in [IDLE]
    without motion and for a round during the lockout; 700 ms when motion is
    seen; 1000 ms for a short submit; 2600 ms for cancel, for the time-out
    and for the end of the lockout; 10270 ms for a granted round. *)
Theorem round_durations (motion : bool) (key : ascii) (m : Machine) :
  (state m = IDLE ->
     elapsed m (loop false key m) = 0 /\ elapsed m (loop true key m) = 700) /\
  (state m = LOCKED ->
     (is_expiry m = false -> elapsed m (loop motion key m) = 0) /\
     (is_expiry m = true -> elapsed m (loop motion key m) = 2600)) /\
  (in_entry m ->
     (~ idle_expired m -> elapsed m (loop motion NUL m) = 0) /\
     (idle_expired m -> elapsed m (loop motion NUL m) = 2600) /\
     (plain_key key -> elapsed m (loop motion key m) = 0) /\
     elapsed m (loop motion "*" m) = 2600 /\
     (inputIndex m < PASS_LEN -> elapsed m (loop motion "#" m) = 1000) /\
     (PASS_LEN <= inputIndex m -> isPasswordCorrect (inputBuffer m) = true ->
        elapsed m (loop motion "#" m) = 10270)).
Proof.
  unfold elapsed. split; [|split].
  - intros Hs. split.
    + rewrite loop_idle_still by done. apply sub32_same.
    + rewrite loop_idle_motion by done.
      apply (round_time
               (lcdHeader "Motion Detected" "Authenticating" >>> delay 700 >>>
                ledsOff >>> lcdHeader "Enter Password:" EmptyString >>>
                printMasked 0)); [reflexivity|].
      eapply takes_eq; [solve_takes_all | by vm_compute].
  - intros Hs. rewrite loop_locked by done. split; intros Hex.
    + rewrite handleLockout_waiting by (by apply is_expiry_false).
      apply sub32_same.
    + rewrite handleLockout_expired by (by apply is_expiry_true).
      apply (round_time
               (lcdHeader "Unlocked" "Try again" >>> delay 800 >>>
                ledsOff >>> closeDoor >>>
                lcdHeader "System Idle" "Waiting motion")); [reflexivity|].
      eapply takes_eq; [solve_takes_all | by vm_compute].
  - intros He. rewrite !loop_entry by done.
    split; [|split; [|split; [|split; [|split]]]].
    + intros Hne. rewrite handleKeypad_none.
      rewrite handleTimeout_fresh; [apply sub32_same|].
      unfold idle_expired in Hne. lia.
    + intros Hx. rewrite handleKeypad_none.
      rewrite handleTimeout_expired by done.
      apply (round_time
               (lcdHeader "Timeout" "Returning..." >>> delay 800 >>>
                ledsOff >>> closeDoor >>>
                lcdHeader "System Idle" "Waiting motion")); [reflexivity|].
      eapply takes_eq; [solve_takes_all | by vm_compute].
    + intros Hk. rewrite handleTimeout_after_key by apply Hk.
      destruct (Z.lt_ge_cases (inputIndex m) PASS_LEN).
      * rewrite handleKeypad_append by done.
        unfold printMaskedProgress. cbn [hw board].
        destruct (appended_frame key (touched m)) as (_ & _ & _ & _ & ->).
        apply (round_time (printMasked (inputIndex (appended key (touched m)))));
          [reflexivity|].
        eapply takes_eq; [solve_takes_all | by vm_compute].
      * rewrite handleKeypad_full by done. apply sub32_same.
    + rewrite handleTimeout_after_key by done. rewrite handleKeypad_cancel.
      apply (round_time
               (lcdHeader "Cancelled" "Returning..." >>> delay 800 >>>
                ledsOff >>> closeDoor >>>
                lcdHeader "System Idle" "Waiting motion")); [reflexivity|].
      eapply takes_eq; [solve_takes_all | by vm_compute].
    + intros Hlt. rewrite handleTimeout_after_key by done.
      rewrite handleKeypad_short by done.
      apply (round_time
               (lcdHeader "Password short" "Enter 8 chars" >>> delay 1000 >>>
                lcdHeader "Enter Password:" EmptyString >>>
                printMasked (inputIndex m))); [reflexivity|].
      eapply takes_eq; [solve_takes_all | by vm_compute].
    + intros Hge Hok. rewrite handleTimeout_after_key by done.
      rewrite handleKeypad_granted by done.
      exact (takes_goGranted (set_failedAttempts 0 (touched m))).
Qed.

(** ** Further properties: a denied round *)

(** X5. In the entry phase, submit with a full buffer that is not the
    password counts one failure.  Below the limit the machine is back at
    the prompt 1850 ms later with the LEDs off, the buffer emptied and the
    idle period restarted at the end of the round.  At the limit it is
    [LOCKED] 2750 ms later with the red LED on and the rejected characters
    still in the buffer, and 900 ms of the lockout are already gone: the
    lockout starts before the lockout tones. *)
Theorem denied_round (motion : bool) (m : Machine) :
  in_entry m ->
  inputIndex m = PASS_LEN ->
  ~ holds_secret (inputBuffer m) ->
  let m' := loop motion "#" m in
  failedAttempts m' = failedAttempts m + 1 /\
  (failedAttempts m + 1 < MAX_ATTEMPTS ->
     state m' = PROMPT /\
     inputIndex m' = 0 /\
     inputBuffer m' = setChar (inputBuffer m) 0 NUL /\
     leds_off (board m') /\
     entryStartMs m' = millis (board m') /\
     elapsed m m' = 1850 /\
     trace (board m') = trace (board m) ++ denied_events ++ prompt_events) /\
  (MAX_ATTEMPTS <= failedAttempts m + 1 ->
     state m' = LOCKED /\
     inputIndex m' = inputIndex m /\
     inputBuffer m' = inputBuffer m /\
     ledRed (board m') = true /\ ledGrn (board m') = false /\
     sub32 (millis (board m')) (lockoutStartMs m') = 900 /\
     elapsed m m' = 2750 /\
     trace (board m') = trace (board m) ++ denied_events ++ lockout_events).
Proof.
  intros He Hi Hne m'. subst m'.
  assert (Hp : isPasswordCorrect (inputBuffer m) = false).
  { destruct (isPasswordCorrect (inputBuffer m)) eqn:E; [|done].
    by apply isPasswordCorrect_spec in E. }
  rewrite loop_entry by done.
  rewrite handleTimeout_after_key by done.
  rewrite handleKeypad_denied by (done || lia).
  split; [|split].
  - destruct (Z.lt_ge_cases (failedAttempts (touched m) + 1) MAX_ATTEMPTS) as [Hr|Hr].
    + by destruct (goDenied_retry _ Hr) as (_ & _ & _ & -> & _).
    + destruct (goDenied_lock (touched m)) as (_ & _ & _ & -> & _); [lia | done].
  - intros Hr. rewrite (goDenied_retry_eq (touched m)) by exact Hr.
    split; [reflexivity|]. split; [reflexivity|]. split; [reflexivity|].
    split; [split; reflexivity|]. split; [reflexivity|]. split.
    + apply (round_time
               (ledDenied >>> lcdHeader "Access Denied" "Try again" >>>
                beepError >>> delay 1500 >>> ledsOff >>>
                lcdHeader "Enter Password:" EmptyString >>> printMasked 0));
        [reflexivity|].
      eapply takes_eq; [solve_takes_all | by vm_compute].
    + change (trace
                ((ledDenied >>> lcdHeader "Access Denied" "Try again" >>>
                  beepError >>> delay 1500 >>> ledsOff >>>
                  lcdHeader "Enter Password:" EmptyString >>> printMasked 0)
                   (board m))
              = trace (board m) ++ denied_events ++ prompt_events).
      apply trace_of; [solve_appends | by vm_compute].
  - intros Hr. rewrite (goDenied_lock_eq (touched m)) by exact Hr.
    split; [reflexivity|]. split; [reflexivity|]. split; [reflexivity|].
    split; [reflexivity|]. split; [reflexivity|]. split; [|split].
    + apply (round_time
               (lcdHeader "LOCKED OUT" "Wait 15 sec" >>> beepLockout >>> ledDenied));
        [reflexivity|].
      eapply takes_eq; [solve_takes_all | by vm_compute].
    + apply (round_time
               (ledDenied >>> lcdHeader "Access Denied" "Try again" >>>
                beepError >>> delay 1500 >>>
                lcdHeader "LOCKED OUT" "Wait 15 sec" >>> beepLockout >>>
                ledDenied)); [reflexivity|].
      eapply takes_eq; [solve_takes_all | by vm_compute].
    + change (trace
                ((ledDenied >>> lcdHeader "Access Denied" "Try again" >>>
                  beepError >>> delay 1500 >>>
                  lcdHeader "LOCKED OUT" "Wait 15 sec" >>> beepLockout >>>
                  ledDenied) (board m))
              = trace (board m) ++ denied_events ++ lockout_events).
      apply trace_of; [solve_appends | by vm_compute].
Qed.

Lemma denied_round_witness :
  failedAttempts (loop false "#" wrong_entry) = failedAttempts wrong_entry + 1.
Proof.
  destruct (denied_round false wrong_entry) as (H & _).
  - right. reflexivity.
  - reflexivity.
  - intros Hs. apply isPasswordCorrect_spec in Hs. vm_compute in Hs.
    discriminate Hs.
  - exact H.
Defined.

(** ** Further properties: the pins and the buffer between rounds *)

Lemma RoundInv_goIdle m :
  (0 < length (inputBuffer m))%nat ->
  charAt (inputBuffer m) PASS_LEN = NUL ->
  RoundInv (goIdle m).
Proof.
  intros Hlen Ht. destruct (goIdle_fields m) as (Hs & Hi & Hb & _).
  destruct (goIdle_pins m) as ((Hr & Hg) & Hd).
  constructor.
  - exact Hg.
  - rewrite Hr, Hs. split; discriminate.
  - exact Hd.
  - rewrite Hb. rewrite charAt_setChar_other by (by vm_compute). exact Ht.
  - rewrite Hi. intros j Hj. lia.
Qed.

Lemma RoundInv_goPrompt m :
  door_closed (board m) ->
  charAt (inputBuffer m) PASS_LEN = NUL ->
  RoundInv (goPrompt m).
Proof.
  intros Hd Ht. destruct (goPrompt_fields m) as (Hs & Hi & Hb & _).
  constructor.
  - reflexivity.
  - rewrite Hs. split; discriminate.
  - exact Hd.
  - rewrite Hb. rewrite charAt_setChar_other by (by vm_compute). exact Ht.
  - rewrite Hi. intros j Hj. lia.
Qed.

Lemma RoundInv_set_ENTRY m :
  RoundInv m -> state m = PROMPT -> RoundInv (set_state ENTRY m).
Proof.
  intros [Hg Hr Hd Ht Hp] Hs.
  constructor; cbn [set_state state inputIndex inputBuffer board]; try done.
  rewrite Hr, Hs. split; discriminate.
Qed.

(** A round that changes nothing the invariant mentions. *)
Lemma RoundInv_same m m' :
  RoundInv m ->
  state m' = state m ->
  inputIndex m' = inputIndex m -> inputBuffer m' = inputBuffer m ->
  ledRed (board m') = ledRed (board m) -> ledGrn (board m') = ledGrn (board m) ->
  servo1 (board m') = servo1 (board m) -> servo2 (board m') = servo2 (board m) ->
  RoundInv m'.
Proof.
  intros [Hg Hr Hd Ht Hp] Es Ei Eb E1 E2 E3 E4.
  constructor; unfold door_closed; rewrite ?Es, ?Ei, ?Eb, ?E1, ?E2, ?E3, ?E4; done.
Qed.

Lemma appended_terminator k m :
  0 <= inputIndex m < PASS_LEN ->
  length (inputBuffer m) = Z.to_nat (PASS_LEN + 1) ->
  charAt (inputBuffer m) PASS_LEN = NUL ->
  charAt (inputBuffer (appended k m)) PASS_LEN = NUL.
Proof.
  intros Hi Hlen Ht. unfold appended.
  cbn [inputIndex inputBuffer set_inputIndex set_inputBuffer].
  destruct (_ =? _); cbn [inputIndex inputBuffer set_inputIndex set_inputBuffer].
  - apply charAt_setChar_same; [by vm_compute|].
    rewrite length_setChar, Hlen. unfold PASS_LEN. lia.
  - rewrite charAt_setChar_other by (unfold PASS_LEN in *; lia). exact Ht.
Qed.

Lemma RoundInv_entry_round key m :
  Inv m -> RoundInv m -> in_entry m ->
  RoundInv (handleTimeout (handleKeypad key m)).
Proof.
  intros HI HR He. pose proof HI as [Hs Hi Hb Hf Hl Hidle].
  pose proof HR as [Hg Hr Hd Ht Hp].
  assert (Hpos : (0 < length (inputBuffer m))%nat)
    by (rewrite Hb; unfold PASS_LEN; lia).
  destruct (decide (key = NUL)) as [->|Hk].
  { rewrite handleKeypad_none.
    destruct (Z.le_gt_cases (sub32 (millis (board m)) (entryStartMs m))
                            IDLE_TIMEOUT_MS).
    - by rewrite handleTimeout_fresh.
    - rewrite handleTimeout_expired by done.
      apply RoundInv_goIdle; [exact Hpos | exact Ht]. }
  rewrite handleTimeout_after_key by done.
  destruct (key_branch key m) as [? | -> | -> Hlt | -> Hge Hok | -> Hge Hok | Hpk Hlt | Hpk Hge];
    [done|..].
  - rewrite handleKeypad_cancel. apply RoundInv_goIdle; [exact Hpos | exact Ht].
  - rewrite handleKeypad_short by done.
    apply (RoundInv_same m); [done | reflexivity..].
  - rewrite handleKeypad_granted by done. rewrite goGranted_split.
    apply RoundInv_goIdle; [exact Hpos | exact Ht].
  - rewrite handleKeypad_denied by done.
    destruct (Z.lt_ge_cases (failedAttempts (touched m) + 1) MAX_ATTEMPTS) as [Hlim|Hlim].
    + rewrite goDenied_retry_eq by exact Hlim.
      apply RoundInv_goPrompt; [exact Hd | exact Ht].
    + rewrite goDenied_lock_eq by exact Hlim. constructor.
      * reflexivity.
      * split; reflexivity.
      * exact Hd.
      * exact Ht.
      * exact Hp.
  - rewrite handleKeypad_append by done.
    destruct (appended_frame key (touched m)) as (Es & _ & _ & _ & Eb).
    destruct (appended_buffer key (touched m)) as (Ei & Ec & Eo);
      [change (0 <= inputIndex m < PASS_LEN); lia | exact Hb |].
    change (inputIndex (touched m)) with (inputIndex m) in Ei, Ec, Eo.
    change (inputBuffer (touched m)) with (inputBuffer m) in Eo.
    unfold printMaskedProgress. constructor; cbn [hw board state inputBuffer inputIndex].
    + rewrite Eb. exact Hg.
    + rewrite Eb, Es. exact Hr.
    + unfold door_closed. rewrite Eb. exact Hd.
    + apply appended_terminator; [change (0 <= inputIndex m < PASS_LEN); lia|
                                  exact Hb | exact Ht].
    + rewrite Ei. intros j Hj.
      destruct (decide (j = inputIndex m)) as [->|Hne].
      * by rewrite Ec.
      * rewrite Eo by lia. apply Hp. lia.
  - rewrite handleKeypad_full by done.
    apply (RoundInv_same m); [done | reflexivity..].
Qed.

Lemma RoundInv_loop motion key m :
  Inv m -> RoundInv m -> RoundInv (loop motion key m).
Proof.
  intros HI HR. pose proof HI as [Hs Hi Hb Hf Hl Hidle].
  pose proof HR as [Hg Hr Hd Ht Hp].
  destruct Hs as [Hs|[Hs|[Hs|Hs]]].
  - destruct motion; [|by rewrite loop_idle_still].
    rewrite loop_idle_motion by done.
    apply RoundInv_set_ENTRY; [|reflexivity].
    apply RoundInv_goPrompt; [exact Hd | exact Ht].
  - rewrite loop_entry by (by left). apply RoundInv_entry_round; [done..| by left].
  - rewrite loop_entry by (by right). apply RoundInv_entry_round; [done..| by right].
  - rewrite loop_locked by done.
    destruct (Z.le_gt_cases LOCKOUT_MS (sub32 (millis (board m)) (lockoutStartMs m))).
    + rewrite handleLockout_expired by done.
      apply RoundInv_goIdle; [|exact Ht].
      change (0 < length (inputBuffer m))%nat. rewrite Hb. unfold PASS_LEN. lia.
    + rewrite handleLockout_waiting by done.
      apply (RoundInv_same m); [done | reflexivity..].
Qed.

Lemma reachable_RoundInv m : reachable m -> RoundInv m.
Proof.
  induction 1 as [b | dt m Hm IH | motion key m Hm IH].
  - change (setup (power_on b)) with
      (goIdle (hw (ledsOff >>> noTone PIN_BUZZER >>>
                   servoWrite Servo1 SERVO1_CLOSED >>>
                   servoWrite Servo2 SERVO2_CLOSED) (power_on b))).
    apply RoundInv_goIdle; [|reflexivity].
    change (0 < length (replicate (Z.to_nat (PASS_LEN + 1)) NUL))%nat.
    rewrite length_replicate. unfold PASS_LEN. lia.
  - apply (RoundInv_same m); [done | reflexivity..].
  - apply RoundInv_loop; [by apply reachable_Inv | done].
Qed.

(** X6. Between rounds the green LED is never on, the red LED is on exactly
    while the machine is [LOCKED], and the door is shut: both servos are at
    their closed angle, in every state. *)
Theorem pins_between_rounds (m : Machine) :
  reachable m ->
  ledGrn (board m) = false /\
  (ledRed (board m) = true <-> state m = LOCKED) /\
  door_closed (board m).
Proof.
  intros Hr. destruct (reachable_RoundInv m Hr) as [Hg Hred Hd _ _]. done.
Qed.

Lemma pins_between_rounds_witness :
  ledGrn (board locked_out) = false /\
  (ledRed (board locked_out) = true <-> state locked_out = LOCKED) /\
  door_closed (board locked_out).
Proof.
  apply (pins_between_rounds locked_out).
  unfold locked_out. apply reachable_run, reach_setup.
Defined.

(** X7. Between rounds the buffer array keeps its [PASS_LEN + 1] cells, its
    last cell holds the terminator, and each of the first [inputIndex]
    cells holds an ordinary key: never [NO_KEY], cancel or submit. *)
Theorem buffer_contents (m : Machine) :
  reachable m ->
  length (inputBuffer m) = Z.to_nat (PASS_LEN + 1) /\
  charAt (inputBuffer m) PASS_LEN = NUL /\
  (forall j, 0 <= j < inputIndex m -> plain_key (charAt (inputBuffer m) j)).
Proof.
  intros Hr. destruct (reachable_RoundInv m Hr) as [_ _ _ Ht Hp].
  destruct (reachable_Inv m Hr) as [_ _ Hb _ _ _]. done.
Qed.

Lemma buffer_contents_witness :
  length (inputBuffer full_entry) = Z.to_nat (PASS_LEN + 1) /\
  charAt (inputBuffer full_entry) PASS_LEN = NUL /\
  (forall j, 0 <= j < inputIndex full_entry ->
             plain_key (charAt (inputBuffer full_entry) j)).
Proof.
  apply (buffer_contents full_entry).
  unfold full_entry. apply reachable_run, reach_setup.
Defined.

(** ** Further properties: typing a code *)

Lemma append_round_frame motion key m :
  in_entry m -> plain_key key -> inputIndex m < PASS_LEN ->
  state (loop motion key m) = state m /\
  failedAttempts (loop motion key m) = failedAttempts m /\
  lockoutStartMs (loop motion key m) = lockoutStartMs m.
Proof.
  intros He Hk Hlt. rewrite loop_entry by done.
  rewrite handleTimeout_after_key by apply Hk.
  rewrite handleKeypad_append by done.
  destruct (appended_frame key (touched m)) as (Es & Ef & _ & El & _).
  unfold printMaskedProgress. cbn [hw state failedAttempts lockoutStartMs].
  by rewrite Es, Ef, El.
Qed.

Lemma run_plain_keys ins m :
  reachable m -> in_entry m ->
  Forall plain_key (keys_of ins) ->
  inputIndex m + Z.of_nat (length ins) <= PASS_LEN ->
  reachable (run ins m) /\
  state (run ins m) = state m /\
  failedAttempts (run ins m) = failedAttempts m /\
  inputIndex (run ins m) = inputIndex m + Z.of_nat (length ins) /\
  (forall j, 0 <= j < inputIndex m ->
     charAt (inputBuffer (run ins m)) j = charAt (inputBuffer m) j) /\
  (forall j k, keys_of ins !! j = Some k ->
     charAt (inputBuffer (run ins m)) (inputIndex m + Z.of_nat j) = k).
Proof.
  revert m. induction ins as [|i ins IH]; intros m Hr He Hk Hlen.
  - cbn [run fold_left length].
    split; [done|]. split; [done|]. split; [done|]. split; [lia|].
    split; [done|]. intros j k Hj. discriminate Hj.
  - cbn [run fold_left]. fold (run ins (tick i m)).
    cbn [keys_of map] in Hk. apply Forall_cons in Hk as [Hk1 Hk].
    cbn [length] in Hlen.
    pose proof (reachable_Inv m Hr) as HI.
    set (m0 := hw (advance (in_dt i)) m).
    assert (Hr0 : reachable m0) by (by apply reach_wait).
    assert (HI0 : Inv m0) by (by apply reachable_Inv).
    assert (He0 : in_entry m0) by exact He.
    assert (Hlt : inputIndex m0 < PASS_LEN)
      by (change (inputIndex m < PASS_LEN); lia).
    destruct (append_round_buffer (in_motion i) (in_key i) m0 HI0 He0 Hk1 Hlt)
      as (Ei & Ec & Eo).
    destruct (append_round_frame (in_motion i) (in_key i) m0 He0 Hk1 Hlt)
      as (Es & Ef & _).
    change (loop (in_motion i) (in_key i) m0) with (tick i m) in Ei, Ec, Eo, Es, Ef.
    change (inputIndex m0) with (inputIndex m) in Ei, Ec, Eo.
    change (inputBuffer m0) with (inputBuffer m) in Eo.
    change (state m0) with (state m) in Es.
    change (failedAttempts m0) with (failedAttempts m) in Ef.
    destruct (IH (tick i m)) as (Rr & Rs & Rf & Ri & Ro & Rk).
    + by apply reachable_tick.
    + unfold in_entry. by rewrite Es.
    + exact Hk.
    + rewrite Ei. lia.
    + split; [exact Rr|]. split; [by rewrite Rs|]. split; [by rewrite Rf|].
      split; [rewrite Ri, Ei; cbn [length]; lia|]. split.
      * intros j Hj. rewrite Ro by lia. by apply Eo.
      * intros j k Hj. destruct j as [|j].
        -- cbn in Hj. injection Hj as <-.
           pose proof (inv_index m HI) as Hidx.
           replace (inputIndex m + Z.of_nat 0) with (inputIndex m) by lia.
           rewrite Ro by (rewrite Ei; lia). exact Ec.
        -- cbn in Hj. rewrite <- (Rk j k Hj). f_equal. rewrite Ei. lia.
Qed.

(** X8. In the entry phase, rounds that each bring an ordinary key store the
    keys in order behind what the buffer holds, as long as they fit; the
    state and the failure counter stay as they are.  The time between the
    keys does not matter: a key read after the idle period has run out
    still counts, because it is handled before the time-out test. *)
Theorem typing_appends (ins : list Input) (m : Machine) :
  reachable m -> in_entry m ->
  Forall plain_key (keys_of ins) ->
  inputIndex m + Z.of_nat (length ins) <= PASS_LEN ->
  state (run ins m) = state m /\
  failedAttempts (run ins m) = failedAttempts m /\
  inputIndex (run ins m) = inputIndex m + Z.of_nat (length ins) /\
  (forall j, 0 <= j < inputIndex m ->
     charAt (inputBuffer (run ins m)) j = charAt (inputBuffer m) j) /\
  (forall j k, keys_of ins !! j = Some k ->
     charAt (inputBuffer (run ins m)) (inputIndex m + Z.of_nat j) = k).
Proof.
  intros Hr He Hk Hlen.
  by destruct (run_plain_keys ins m Hr He Hk Hlen) as (_ & H).
Qed.

Lemma typing_appends_witness :
  state (run slow_typing fresh_entry) = state fresh_entry /\
  inputIndex (run slow_typing fresh_entry) = inputIndex fresh_entry + 2.
Proof.
  destruct (typing_appends slow_typing fresh_entry) as (Hs & _ & Hi & _).
  - unfold fresh_entry. apply reachable_run, reach_setup.
  - right. reflexivity.
  - repeat constructor; discriminate.
  - by vm_compute.
  - split; [exact Hs | exact Hi].
Defined.

Lemma run_app ins1 ins2 m : run (ins1 ++ ins2) m = run ins2 (run ins1 m).
Proof. unfold run. apply fold_left_app. Qed.

Lemma secret_lookup i :
  0 <= i < PASS_LEN -> secret !! Z.to_nat i = Some (charAt PASSWORD i).
Proof.
  intros Hi.
  assert (Hc : i = 0 \/ i = 1 \/ i = 2 \/ i = 3 \/ i = 4 \/ i = 5 \/ i = 6 \/ i = 7)
    by (unfold PASS_LEN in Hi; lia).
  destruct Hc as [->|[->|[->|[->|[->|[->|[->| ->]]]]]]]; reflexivity.
Qed.

(** The buffer after a whole code has been typed from an empty buffer. *)
Lemma typed_code ins m :
  reachable m -> in_entry m -> inputIndex m = 0 ->
  Forall plain_key (keys_of ins) ->
  length ins = Z.to_nat PASS_LEN ->
  reachable (run ins m) /\
  in_entry (run ins m) /\
  failedAttempts (run ins m) = failedAttempts m /\
  inputIndex (run ins m) = PASS_LEN /\
  (holds_secret (inputBuffer (run ins m)) <-> keys_of ins = secret).
Proof.
  intros Hr He Hi Hk Hlen.
  destruct (run_plain_keys ins m Hr He Hk) as (Rr & Rs & Rf & Ri & _ & Rk).
  { rewrite Hi, Hlen. unfold PASS_LEN. lia. }
  split; [exact Rr|]. split; [unfold in_entry; by rewrite Rs|].
  split; [exact Rf|]. split; [rewrite Ri, Hi, Hlen; unfold PASS_LEN; lia|].
  assert (Hkl : length (keys_of ins) = Z.to_nat PASS_LEN)
    by (unfold keys_of; by rewrite length_map).
  assert (Hat : forall i, 0 <= i < PASS_LEN ->
            keys_of ins !! Z.to_nat i
            = Some (charAt (inputBuffer (run ins m)) i)).
  { intros i Hi'.
    destruct (keys_of ins !! Z.to_nat i) as [k|] eqn:E.
    - rewrite <- (Rk _ _ E). do 2 f_equal. rewrite Hi. lia.
    - apply lookup_ge_None in E. rewrite Hkl in E. lia. }
  split.
  - intros Hsec. apply list_eq. intros n.
    destruct (decide (Z.of_nat n < PASS_LEN)) as [Hn|Hn].
    + rewrite <- (Nat2Z.id n). rewrite Hat, secret_lookup by lia.
      f_equal. apply Hsec. lia.
    + rewrite !(proj2 (lookup_ge_None _ _)); [done|..].
      * change (length secret) with (Z.to_nat PASS_LEN). lia.
      * rewrite Hkl. lia.
  - intros Heq i Hi'.
    pose proof (Hat i Hi') as H1. rewrite Heq, secret_lookup in H1 by done.
    by injection H1.
Qed.

(** X9. From the entry phase with an empty buffer, [PASS_LEN] ordinary keys
    and then submit, at any pace: if the keys are the password the machine
    ends in [IDLE] with the failure counter at 0 and the door shut; if they
    are not, the counter is one higher than before and the machine is at
    the prompt or locked. *)
Theorem code_then_submit (ins : list Input) (dt : Z) (motion : bool) (m : Machine) :
  reachable m -> in_entry m -> inputIndex m = 0 ->
  Forall plain_key (keys_of ins) ->
  length ins = Z.to_nat PASS_LEN ->
  let m' := run (ins ++ [mkInput dt motion "#"]) m in
  (keys_of ins = secret ->
     state m' = IDLE /\ failedAttempts m' = 0 /\ door_closed (board m')) /\
  (keys_of ins <> secret ->
     failedAttempts m' = failedAttempts m + 1 /\
     (state m' = PROMPT \/ state m' = LOCKED)).
Proof.
  intros Hr He Hi Hk Hlen m'. subst m'. rewrite run_app.
  destruct (typed_code ins m Hr He Hi Hk Hlen) as (Rr & Re & Rf & Ri & Rsec).
  set (m1 := run ins m) in *.
  cbn [run fold_left]. unfold tick. cbn [in_dt in_motion in_key].
  set (m2 := hw (advance dt) m1).
  assert (He2 : in_entry m2) by exact Re.
  assert (Hi2 : PASS_LEN <= inputIndex m2)
    by (change (PASS_LEN <= inputIndex m1); lia).
  rewrite loop_entry by done. rewrite handleTimeout_after_key by done.
  split.
  - intros Heq.
    rewrite handleKeypad_granted; [| done |].
    + split; [reflexivity|]. split; [reflexivity|]. split; reflexivity.
    + apply isPasswordCorrect_spec. by apply Rsec.
  - intros Hne.
    assert (Hp : isPasswordCorrect (inputBuffer m2) = false).
    { destruct (isPasswordCorrect (inputBuffer m2)) eqn:E; [|done].
      apply isPasswordCorrect_spec in E. by apply Rsec in E. }
    rewrite handleKeypad_denied by done.
    destruct (Z.lt_ge_cases (failedAttempts (touched m2) + 1) MAX_ATTEMPTS) as [Hl|Hl].
    + destruct (goDenied_retry _ Hl) as (-> & _ & _ & -> & _).
      split; [|by left]. change (failedAttempts m1 + 1 = failedAttempts m + 1).
      by rewrite Rf.
    + destruct (goDenied_lock (touched m2)) as (-> & _ & _ & -> & _); [lia|].
      split; [|by right]. change (failedAttempts m1 + 1 = failedAttempts m + 1).
      by rewrite Rf.
Qed.

Lemma code_then_submit_witness :
  state (run (type_secret ++ [mkInput 50 false "#"]) fresh_entry) = IDLE /\
  failedAttempts (run (type_wrong ++ [mkInput 50 false "#"]) fresh_entry)
  = failedAttempts fresh_entry + 1.
Proof.
  assert (Hr : reachable fresh_entry)
    by (unfold fresh_entry; apply reachable_run, reach_setup).
  assert (He : in_entry fresh_entry) by (right; reflexivity).
  split.
  - destruct (code_then_submit type_secret 50 false fresh_entry Hr He)
      as (H & _); [reflexivity | repeat constructor; discriminate | reflexivity |].
    apply H. reflexivity.
  - destruct (code_then_submit type_wrong 50 false fresh_entry Hr He)
      as (_ & H); [reflexivity | repeat constructor; discriminate | reflexivity |].
    apply H. discriminate.
Defined.

(** ** Further properties: the lockout and the way back to [IDLE] *)

Lemma sub32_advance c d s :
  sub32 (add32 c d) s = wrap32 (sub32 c s + d).
Proof.
  unfold sub32, add32, wrap32.
  rewrite Zminus_mod_idemp_l, Zplus_mod_idemp_l. f_equal. lia.
Qed.

Lemma wrap32_small z : 0 <= z < ULONG_MOD -> wrap32 z = z.
Proof. apply Z.mod_small. Qed.

Lemma locked_round_waiting i m :
  state m = LOCKED -> 0 <= in_dt i ->
  sub32 (millis (board m)) (lockoutStartMs m) + in_dt i < LOCKOUT_MS ->
  state (tick i m) = LOCKED /\
  failedAttempts (tick i m) = failedAttempts m /\
  inputIndex (tick i m) = inputIndex m /\
  inputBuffer (tick i m) = inputBuffer m /\
  lockoutStartMs (tick i m) = lockoutStartMs m /\
  ledRed (board (tick i m)) = ledRed (board m) /\
  sub32 (millis (board (tick i m))) (lockoutStartMs (tick i m))
  = sub32 (millis (board m)) (lockoutStartMs m) + in_dt i.
Proof.
  intros Hs Hdt Hlt. unfold tick.
  set (m0 := hw (advance (in_dt i)) m).
  pose proof (sub32_range (millis (board m)) (lockoutStartMs m)) as Hr.
  assert (He : sub32 (millis (board m0)) (lockoutStartMs m0)
               = sub32 (millis (board m)) (lockoutStartMs m) + in_dt i).
  { change (sub32 (add32 (clock (board m)) (in_dt i)) (lockoutStartMs m)
            = sub32 (clock (board m)) (lockoutStartMs m) + in_dt i).
    rewrite sub32_advance. apply wrap32_small.
    unfold millis, LOCKOUT_MS, ULONG_MOD in *. lia. }
  rewrite loop_locked by exact Hs.
  rewrite handleLockout_waiting by (rewrite He; lia).
  split; [exact Hs|]. split; [reflexivity|]. split; [reflexivity|].
  split; [reflexivity|]. split; [reflexivity|]. split; [reflexivity|].
  exact He.
Qed.

(** X10. A lockout cannot be cut short: while the time since the lockout
    began stays below [LOCKOUT_MS], the machine stays [LOCKED] through any
    rounds, whatever keys are pressed and whatever the motion sensor says,
    and the failure counter, the buffer, the start of the lockout and the
    red LED stay as they are. *)
Theorem lockout_holds (ins : list Input) (m : Machine) :
  state m = LOCKED ->
  forward ins ->
  sub32 (millis (board m)) (lockoutStartMs m) + total_dt ins < LOCKOUT_MS ->
  state (run ins m) = LOCKED /\
  failedAttempts (run ins m) = failedAttempts m /\
  inputIndex (run ins m) = inputIndex m /\
  inputBuffer (run ins m) = inputBuffer m /\
  lockoutStartMs (run ins m) = lockoutStartMs m /\
  ledRed (board (run ins m)) = ledRed (board m).
Proof.
  revert m. induction ins as [|i ins IH]; intros m Hs Hf Hlt; [done|].
  apply Forall_cons in Hf as [Hdt Hf]. cbn [total_dt fold_right] in Hlt.
  fold (total_dt ins) in Hlt.
  assert (Htot : 0 <= total_dt ins).
  { clear -Hf. induction Hf as [|j ins Hj _ IHf]; cbn [total_dt fold_right];
      [done|]. fold (total_dt ins). lia. }
  destruct (locked_round_waiting i m Hs Hdt) as (Es & Ef & Ei & Eb & El & Er & Ee);
    [lia|].
  cbn [run fold_left]. fold (run ins (tick i m)).
  destruct (IH (tick i m) Es Hf) as (Rs & Rf & Ri & Rb & Rl & Rr);
    [rewrite Ee; lia|].
  rewrite Rs, Rf, Ri, Rb, Rl, Rr, Ef, Ei, Eb, El, Er. done.
Qed.

Lemma lockout_holds_witness :
  state (run hammering locked_out) = LOCKED /\
  failedAttempts (run hammering locked_out) = failedAttempts locked_out.
Proof.
  destruct (lockout_holds hammering locked_out) as (Hs & Hf & _).
  - reflexivity.
  - repeat constructor; by vm_compute.
  - by vm_compute.
  - split; [exact Hs | exact Hf].
Defined.

(** X11. No reachable machine is stuck: from each of them some wait of at
    most [LOCKOUT_MS], followed by one round without key and without
    motion, ends in [IDLE]. *)
Theorem back_to_idle (m : Machine) :
  reachable m ->
  exists dt, 0 <= dt <= LOCKOUT_MS /\
             state (tick (mkInput dt false NUL) m) = IDLE.
Proof.
  intros Hr. pose proof (reachable_Inv m Hr) as [Hs _ _ _ _ _].
  assert (Hentry : in_entry m ->
            exists dt, 0 <= dt <= LOCKOUT_MS /\
                       state (tick (mkInput dt false NUL) m) = IDLE).
  { intros He.
    pose proof (sub32_range (millis (board m)) (entryStartMs m)) as Hrg.
    set (e := sub32 (millis (board m)) (entryStartMs m)) in *.
    exists (Z.max 0 (IDLE_TIMEOUT_MS + 1 - e)).
    split; [unfold LOCKOUT_MS, IDLE_TIMEOUT_MS; lia|].
    unfold tick. cbn [in_dt in_motion in_key].
    set (m0 := hw (advance (Z.max 0 (IDLE_TIMEOUT_MS + 1 - e))) m).
    assert (He0 : in_entry m0) by exact He.
    rewrite loop_entry by done. rewrite handleKeypad_none.
    rewrite handleTimeout_expired; [reflexivity | done |].
    change (IDLE_TIMEOUT_MS <
            sub32 (add32 (clock (board m)) (Z.max 0 (IDLE_TIMEOUT_MS + 1 - e)))
                  (entryStartMs m)).
    rewrite sub32_advance. fold (millis (board m)). fold e.
    destruct (Z.le_gt_cases e IDLE_TIMEOUT_MS).
    - rewrite Z.max_r by lia. rewrite wrap32_small;
        unfold IDLE_TIMEOUT_MS, ULONG_MOD in *; lia.
    - rewrite Z.max_l by lia. rewrite Z.add_0_r, wrap32_small; lia. }
  destruct Hs as [Hs|[Hs|[Hs|Hs]]].
  - exists 0. split; [by vm_compute|]. unfold tick. cbn [in_dt in_motion in_key].
    rewrite loop_idle_still by exact Hs. exact Hs.
  - apply Hentry. by left.
  - apply Hentry. by right.
  - pose proof (sub32_range (millis (board m)) (lockoutStartMs m)) as Hrg.
    set (e := sub32 (millis (board m)) (lockoutStartMs m)) in *.
    exists (Z.max 0 (LOCKOUT_MS - e)).
    split; [unfold LOCKOUT_MS; lia|].
    unfold tick. cbn [in_dt in_motion in_key].
    set (m0 := hw (advance (Z.max 0 (LOCKOUT_MS - e))) m).
    rewrite loop_locked by exact Hs.
    rewrite handleLockout_expired; [reflexivity|].
    change (LOCKOUT_MS <=
            sub32 (add32 (clock (board m)) (Z.max 0 (LOCKOUT_MS - e)))
                  (lockoutStartMs m)).
    rewrite sub32_advance. fold (millis (board m)). fold e.
    destruct (Z.le_gt_cases LOCKOUT_MS e).
    + rewrite Z.max_l by lia. rewrite Z.add_0_r, wrap32_small; lia.
    + rewrite Z.max_r by lia. rewrite wrap32_small;
        unfold LOCKOUT_MS, ULONG_MOD in *; lia.
Qed.

Lemma back_to_idle_witness :
  exists dt, 0 <= dt <= LOCKOUT_MS /\
             state (tick (mkInput dt false NUL) locked_out) = IDLE.
Proof.
  apply (back_to_idle locked_out).
  unfold locked_out. apply reachable_run, reach_setup.
Defined.

(** ** Further properties: the rounds that end in [goIdle] *)

Lemma leaving_trace line1 line2 m :
  trace (board (goIdle (hw (delay 800) (hw (lcdHeader line1 line2) m))))
  = trace (board m) ++ leaving_events line1 line2.
Proof.
  rewrite goIdle_trace. cbn [hw board]. unfold leaving_events.
  rewrite (trace_of (delay 800) [Delay 800]); [|solve_appends | reflexivity].
  rewrite (trace_of (lcdHeader line1 line2) (lcdHeader_events line1 line2));
    [|solve_appends | reflexivity].
  by rewrite <- !app_assoc.
Qed.

(** X12. The idle time-out, without a key: when the clock reads [d]
    milliseconds after the start of the idle period, also across a wrap of
    [millis()], the round does nothing at all up to [d = IDLE_TIMEOUT_MS]
    included; beyond it, it shows the time-out notice and ends in [IDLE]
    with the buffer emptied and the failure counter as it was. *)
Theorem idle_timeout_edge (motion : bool) (d : Z) (m : Machine) :
  in_entry m ->
  0 <= d < ULONG_MOD ->
  millis (board m) = add32 (entryStartMs m) d ->
  let m' := loop motion NUL m in
  (d <= IDLE_TIMEOUT_MS -> m' = m) /\
  (IDLE_TIMEOUT_MS < d ->
     state m' = IDLE /\
     inputIndex m' = 0 /\
     inputBuffer m' = setChar (inputBuffer m) 0 NUL /\
     failedAttempts m' = failedAttempts m /\
     trace (board m') = trace (board m) ++ leaving_events "Timeout" "Returning...").
Proof.
  intros He Hd Hc m'. subst m'.
  assert (Hel : sub32 (millis (board m)) (entryStartMs m) = d)
    by (rewrite Hc, sub32_add32; by apply wrap32_small).
  rewrite loop_entry by done. rewrite handleKeypad_none. split.
  - intros Hle. apply handleTimeout_fresh. by rewrite Hel.
  - intros Hlt. rewrite handleTimeout_expired by (done || by rewrite Hel).
    split; [reflexivity|]. split; [reflexivity|]. split; [reflexivity|].
    split; [reflexivity|]. apply leaving_trace.
Qed.

Lemma idle_timeout_edge_witness :
  state (loop false NUL stale_entry) = IDLE.
Proof.
  destruct (idle_timeout_edge false 11000 stale_entry) as (_ & H).
  - right. reflexivity.
  - by vm_compute.
  - reflexivity.
  - apply H. by vm_compute.
Defined.

(** X13. Cancel in the entry phase, whatever the buffer holds and even after
    the idle period has run out: the round shows the cancel notice (not the
    time-out notice), ends in [IDLE] with the LEDs off, the door shut and
    the buffer emptied, and leaves the failure counter as it was. *)
Theorem cancel_round (motion : bool) (m : Machine) :
  in_entry m ->
  let m' := loop motion "*" m in
  state m' = IDLE /\
  inputIndex m' = 0 /\
  inputBuffer m' = setChar (inputBuffer m) 0 NUL /\
  failedAttempts m' = failedAttempts m /\
  lockoutStartMs m' = lockoutStartMs m /\
  leds_off (board m') /\ door_closed (board m') /\
  trace (board m') = trace (board m) ++ leaving_events "Cancelled" "Returning...".
Proof.
  intros He m'. subst m'.
  rewrite loop_entry by done. rewrite handleTimeout_after_key by done.
  rewrite handleKeypad_cancel.
  split; [reflexivity|]. split; [reflexivity|]. split; [reflexivity|].
  split; [reflexivity|]. split; [reflexivity|].
  split; [split; reflexivity|]. split; [split; reflexivity|].
  apply (leaving_trace "Cancelled" "Returning..." (touched m)).
Qed.

Lemma cancel_round_witness :
  state (loop false "*" stale_entry) = IDLE /\
  failedAttempts (loop false "*" stale_entry) = failedAttempts stale_entry.
Proof.
  destruct (cancel_round false stale_entry) as (Hs & _ & _ & Hf & _).
  - right. reflexivity.
  - split; [exact Hs | exact Hf].
Defined.

(** X14. A round in [IDLE] reads the motion sensor only: without motion the
    machine is left exactly as it is, whatever key is down; with motion it
    announces it, waits 700 ms and opens the entry phase in state [ENTRY]
    with the LEDs off, the buffer emptied and the idle period started at
    the end of the round.  The failure counter carries over from earlier
    visits. *)
Theorem idle_round (key : ascii) (m : Machine) :
  state m = IDLE ->
  loop false key m = m /\
  loop true key m = loop true NUL m /\
  (let m' := loop true key m in
   state m' = ENTRY /\
   inputIndex m' = 0 /\
   inputBuffer m' = setChar (inputBuffer m) 0 NUL /\
   failedAttempts m' = failedAttempts m /\
   entryStartMs m' = millis (board m') /\
   leds_off (board m') /\
   servo1 (board m') = servo1 (board m) /\
   servo2 (board m') = servo2 (board m) /\
   trace (board m') =
     trace (board m) ++
     lcdHeader_events "Motion Detected" "Authenticating" ++ [Delay 700] ++
     prompt_events).
Proof.
  intros Hs. split; [by apply loop_idle_still|].
  split; [by rewrite !loop_idle_motion|].
  cbn zeta. rewrite loop_idle_motion by done.
  split; [reflexivity|]. split; [reflexivity|]. split; [reflexivity|].
  split; [reflexivity|]. split; [reflexivity|].
  split; [split; reflexivity|]. split; [reflexivity|]. split; [reflexivity|].
  change (trace
            ((lcdHeader "Motion Detected" "Authenticating" >>> delay 700 >>>
              ledsOff >>> lcdHeader "Enter Password:" EmptyString >>>
              printMasked 0) (board m))
          = trace (board m) ++
            lcdHeader_events "Motion Detected" "Authenticating" ++ [Delay 700] ++
            prompt_events).
  apply trace_of; [solve_appends | by vm_compute].
Qed.

Lemma idle_round_witness :
  loop false "5" (setup (power_on blank)) = setup (power_on blank) /\
  state (loop true "5" (setup (power_on blank))) = ENTRY.
Proof.
  destruct (idle_round "5" (setup (power_on blank))) as (H1 & _ & H2 & _).
  - reflexivity.
  - split; [exact H1 | exact H2].
Defined.

(** X15. The end of the lockout: when the clock reads [d] milliseconds after
    the start of the lockout, also across a wrap of [millis()], the round
    ends the lockout from [d = LOCKOUT_MS] on, included: it shows the
    notice, puts the failure counter to 0, turns the LEDs off, empties the
    buffer and ends in [IDLE]; before that it only prints the countdown. *)
Theorem lockout_expiry_edge (motion : bool) (key : ascii) (d : Z) (m : Machine) :
  state m = LOCKED ->
  0 <= d < ULONG_MOD ->
  millis (board m) = add32 (lockoutStartMs m) d ->
  let m' := loop motion key m in
  (d < LOCKOUT_MS ->
     m' = hw (emit (LcdSetCursor 0 1) >>> emit (LcdPrint "Wait ") >>>
              emit (LcdPrintNum ((LOCKOUT_MS - d) / 1000)) >>>
              emit (LcdPrint " sec   ")) m) /\
  (LOCKOUT_MS <= d ->
     state m' = IDLE /\
     failedAttempts m' = 0 /\
     inputIndex m' = 0 /\
     inputBuffer m' = setChar (inputBuffer m) 0 NUL /\
     leds_off (board m') /\ door_closed (board m') /\
     trace (board m') = trace (board m) ++ leaving_events "Unlocked" "Try again").
Proof.
  intros Hs Hd Hc m'. subst m'.
  assert (Hel : sub32 (millis (board m)) (lockoutStartMs m) = d)
    by (rewrite Hc, sub32_add32; by apply wrap32_small).
  rewrite loop_locked by done. split.
  - intros Hlt. rewrite handleLockout_waiting by (by rewrite Hel).
    by rewrite Hel.
  - intros Hge. rewrite handleLockout_expired by (by rewrite Hel).
    split; [reflexivity|]. split; [reflexivity|]. split; [reflexivity|].
    split; [reflexivity|]. split; [split; reflexivity|].
    split; [split; reflexivity|].
    apply (leaving_trace "Unlocked" "Try again" (set_failedAttempts 0 m)).
Qed.

Lemma lockout_expiry_edge_witness :
  state (loop false NUL lockout_over) = IDLE /\
  failedAttempts (loop false NUL lockout_over) = 0.
Proof.
  destruct (lockout_expiry_edge false NUL 15900 lockout_over) as (_ & H).
  - reflexivity.
  - by vm_compute.
  - reflexivity.
  - destruct H as (Hs & Hf & _); [by vm_compute|].
    split; [exact Hs | exact Hf].
Defined.

(** ** Further properties: the comparison, the start-up, whole runs *)

Lemma passwordLoop_agree n i buf buf' :
  (forall j, i <= j < i + Z.of_nat n -> charAt buf j = charAt buf' j) ->
  passwordLoop n i buf = passwordLoop n i buf'.
Proof.
  revert i. induction n as [|n IH]; intros i H; cbn [passwordLoop]; [done|].
  rewrite (H i) by lia. rewrite (IH (i + 1)); [done|].
  intros j Hj. apply H. lia.
Qed.

Lemma passwordLoop_count n i buf :
  (snd (passwordLoop n i buf) <= n)%nat /\
  (n <> O -> (1 <= snd (passwordLoop n i buf))%nat).
Proof.
  revert i. induction n as [|n IH]; intros i; cbn [passwordLoop]; [done|].
  destruct (negb _); cbn [snd]; [lia|].
  destruct (IH (i + 1)) as (H1 & _). lia.
Qed.

(** X16. [isPasswordCorrect] looks at the first [PASS_LEN] cells of the
    buffer and at nothing else: two buffers that agree there get the same
    answer after the same number of comparisons, and that number is between
    1 and [PASS_LEN]. *)
Theorem comparison_reads_prefix (buf buf' : list ascii) :
  (forall i, 0 <= i < PASS_LEN -> charAt buf i = charAt buf' i) ->
  isPasswordCorrect buf = isPasswordCorrect buf' /\
  comparisonsMade buf = comparisonsMade buf' /\
  (1 <= comparisonsMade buf <= Z.to_nat PASS_LEN)%nat.
Proof.
  intros H. unfold isPasswordCorrect, comparisonsMade.
  rewrite (passwordLoop_agree _ 0 buf buf')
    by (intros j Hj; apply H; unfold PASS_LEN in *; lia).
  split; [done|]. split; [done|].
  destruct (passwordLoop_count (Z.to_nat PASS_LEN) 0 buf') as (H1 & H2).
  split; [apply H2; by vm_compute | exact H1].
Qed.

Lemma comparison_reads_prefix_witness :
  isPasswordCorrect secret_and_more = isPasswordCorrect PASSWORD.
Proof.
  destruct (comparison_reads_prefix secret_and_more PASSWORD) as (H & _).
  - intros i Hi.
    assert (Hc : i = 0 \/ i = 1 \/ i = 2 \/ i = 3 \/ i = 4 \/ i = 5 \/
                 i = 6 \/ i = 7) by (unfold PASS_LEN in Hi; lia).
    destruct Hc as [->|[->|[->|[->|[->|[->|[->| ->]]]]]]]; reflexivity.
  - exact H.
Defined.

(** X17. [setup], on any board: it switches the LEDs and the buzzer off,
    writes the closed angles, and then runs [goIdle], whose [closeDoor]
    sends the servos to their open angle and sweeps them shut; 1800 ms
    later the machine is in [IDLE] with the LEDs off, the door shut, an
    all-zero buffer and no failure counted. *)
Theorem boot_sequence (b : Board) :
  let m := setup (power_on b) in
  state m = IDLE /\
  failedAttempts m = 0 /\
  inputIndex m = 0 /\
  inputBuffer m = replicate (Z.to_nat (PASS_LEN + 1)) NUL /\
  leds_off (board m) /\ door_closed (board m) /\
  sub32 (clock (board m)) (clock b) = 1800 /\
  trace (board m) = trace b ++ setup_events ++ goIdle_events.
Proof.
  cbn zeta.
  split; [reflexivity|]. split; [reflexivity|]. split; [reflexivity|].
  split; [reflexivity|]. split; [split; reflexivity|].
  split; [split; reflexivity|]. split.
  - apply (round_time
             (ledsOff >>> noTone PIN_BUZZER >>>
              servoWrite Servo1 SERVO1_CLOSED >>>
              servoWrite Servo2 SERVO2_CLOSED >>>
              ledsOff >>> closeDoor >>>
              lcdHeader "System Idle" "Waiting motion")); [reflexivity|].
    eapply takes_eq; [solve_takes_all | by vm_compute].
  - change (trace
              ((ledsOff >>> noTone PIN_BUZZER >>>
                servoWrite Servo1 SERVO1_CLOSED >>>
                servoWrite Servo2 SERVO2_CLOSED >>>
                ledsOff >>> closeDoor >>>
                lcdHeader "System Idle" "Waiting motion") b)
            = trace b ++ setup_events ++ goIdle_events).
    apply trace_of; [solve_appends | by vm_compute].
Qed.

Lemma merge_tick i m : merge (tick i m) = merged_tick i (merge m).
Proof.
  unfold tick, merged_tick.
  rewrite (merge_loop (in_motion i) (in_key i) (hw (advance (in_dt i)) m)).
  f_equal.
Qed.

(** X18. The five-state machine follows the six-state code through whole
    runs: after any sequence of rounds the two machines agree on all
    globals, on the board and on the trace, and differ in the state only in
    that the code may say [PROMPT] where the other says [ENTRY]. *)
Theorem run_simulation (ins : list Input) (m : Machine) :
  merge (run ins m) = merged_run ins (merge m) /\
  Merged.state (merged_run ins (merge m)) = mergeState (state (run ins m)) /\
  Merged.board (merged_run ins (merge m)) = board (run ins m) /\
  Merged.failedAttempts (merged_run ins (merge m)) = failedAttempts (run ins m) /\
  Merged.inputBuffer (merged_run ins (merge m)) = inputBuffer (run ins m).
Proof.
  assert (H : merge (run ins m) = merged_run ins (merge m)).
  { revert m. induction ins as [|i ins IH]; intros m; [done|].
    cbn [run merged_run fold_left].
    fold (run ins (tick i m)). fold (merged_run ins (merged_tick i (merge m))).
    by rewrite IH, merge_tick. }
  rewrite <- H. done.
Qed.
